(** * extract-flash-cards: the batching routine and the row aggregation loop

    A shallow embedding of [src/extractflashcards/main.py]:
    - [split_text_into_batches], the greedy line batcher, together with the
      behaviour of Python's [str.splitlines(keepends=True)] it iterates over;
    - the nested loop of [main] that reads the rows of every answer of the
      completion service, drops the rows whose first field was already
      observed and hands the others to the CSV writer;
    - [main] as a whole, from the parsed arguments to its exit code;
    and of the two loops of [src/extractflashcards/csv_to_anki.py] over the
    rows of the CSV file. *)

From stdpp Require Import gmap list strings pretty.

#[local] Set Warnings "-clear-no-such-hyp".

Open Scope Z_scope.

(** ** Python strings

    A Python [str] is a sequence of Unicode code points; [len] counts them. *)

Abbreviation char := N (only parsing).
Abbreviation str := (list N) (only parsing).

Definition len {A : Type} (l : list A) : Z := Z.of_nat (length l).

(** ["".join(parts)] *)
Definition join (parts : list str) : str := concat parts.

(** A literal of the source, as code points. *)
Definition lit (s : string) : str :=
  map Ascii.N_of_ascii (String.list_ascii_of_string s).

(** The text of [f"{n}"] for an [int]: decimal digits, a leading minus sign
    for a negative number. *)
Definition str_of_int (n : Z) : str := lit (pretty n).

(** The characters of the decimal text of a number: the minus sign and the
    ten digits. *)
Definition number_char (c : N) : bool :=
  ((c =? 45) || ((48 <=? c) && (c <=? 57)))%N.

(** ** [str.splitlines(keepends=True)]

    The line boundaries of [str.splitlines]: line feed, vertical tab, form
    feed, carriage return, file, group and record separator, next line
    (U+0085), line separator and paragraph separator. A carriage return
    directly followed by a line feed is one boundary. *)
Definition is_linebreak (c : char) : bool :=
  match c with
  | 0x0A | 0x0B | 0x0C | 0x0D | 0x1C | 0x1D | 0x1E | 0x85
  | 0x2028 | 0x2029 => true
  | _ => false
  end%N.

Definition CR : char := 0x0D%N.
Definition LF : char := 0x0A%N.

(** [splitlines_from cur s]: the scan of the interpreter, where [cur] holds
    the characters of the line begun and [s] what is left to read. Every
    line keeps its terminator; a last line without one is kept too, and
    nothing is produced after a final terminator. *)
Fixpoint splitlines_from (cur s : str) : list str :=
  match s with
  | [] => match cur with [] => [] | _ => [cur] end
  | c :: s' =>
      if is_linebreak c then
        match s' with
        | c' :: s'' =>
            if bool_decide (c = CR) && bool_decide (c' = LF)
            then (cur ++ [c; c']) :: splitlines_from [] s''
            else (cur ++ [c]) :: splitlines_from [] s'
        | [] => [cur ++ [c]]
        end
      else splitlines_from (cur ++ [c]) s'
  end.

Definition splitlines (s : str) : list str := splitlines_from [] s.

(** ** [split_text_into_batches] *)

(** The message of the early return: the 1-based line number, the length
    of the line and the maximum. *)
Definition line_too_long (number observed max_batch_length : Z) : str :=
  lit "The line " ++ str_of_int number ++ lit " is too long (got "
  ++ str_of_int observed ++ lit ", max. is "
  ++ str_of_int max_batch_length ++ lit ").".

(** The body of the [for i, line in enumerate(...)] loop, with the three
    local variables [result], [batch_parts] and [current_len] threaded
    through, and the statements after the loop at the end of the lines. *)
Fixpoint batch_lines (max_batch_length i : Z) (lines : list str)
    (result batch_parts : list str) (current_len : Z)
    : option (list str) * option str :=
  match lines with
  | [] =>
      if bool_decide (len batch_parts > 0)
      then (Some (result ++ [join batch_parts]), None)
      else (Some result, None)
  | line :: lines' =>
      if bool_decide (len line > max_batch_length) then
        (None, Some (line_too_long (i + 1) (len line) max_batch_length))
      else
        let '(result, batch_parts, current_len) :=
          if bool_decide (current_len + len line > max_batch_length)
          then (result ++ [join batch_parts], [], 0)
          else (result, batch_parts, current_len) in
        batch_lines max_batch_length (i + 1) lines'
          result (batch_parts ++ [line]) (current_len + len line)
  end.

Definition split_text_into_batches (text : str) (max_batch_length : Z)
    : option (list str) * option str :=
  batch_lines max_batch_length 0 (splitlines text) [] [] 0.

(** ** The aggregation loop of [main]

    A row is what [csv.reader] yields for one record: the list of its
    fields. The loop only looks at the rows, so an answer of the service is
    kept as the rows read from it. *)

Abbreviation row := (list (list N)) (only parsing).

Inductive category := Verbs | Nouns | Adjectives | Adverbs.

(** A prompt is the template of a category filled with the batch (the two
    language names are the same through a run). *)
Record prompt := Prompt { prompt_category : category; prompt_batch : str }.

(** The four templates, in the order of the list the loop walks. *)
Definition prompts (batch : str) : list prompt :=
  [Prompt Verbs batch; Prompt Nouns batch;
   Prompt Adjectives batch; Prompt Adverbs batch].

(** What [openai.ChatCompletion.create] comes to for the loop: the rows of
    the content of the first choice, or the one exception that the loop
    catches. Any other exception of the call is not caught and leaves
    [main]; such runs are outside of this model, which is about the runs in
    which every request is answered or refused. *)
Inductive completion :=
  | Answer (rows : list row)
  | AuthenticationError.

(** The variables the loop works on: [observed_set], the rows handed to
    [writer.writerow] by the loop (oldest first; the header row, written
    before the loop, is not among them), and how many requests were sent. *)
Record state := State {
  observed_set : gset str;
  written : list row;
  calls : nat
}.

Inductive exception := IndexError.

(** A statement goes on, raises, or leaves [main] with an exit code. *)
Inductive signal (A : Type) :=
  | Normal (a : A)
  | Raise (e : exception)
  | Return (code : Z).
Arguments Normal {A} a.
Arguments Raise {A} e.
Arguments Return {A} code.

Definition M (A : Type) : Type := state → signal A * state.

#[global] Instance M_ret : MRet M := λ A a st, (Normal a, st).

#[global] Instance M_bind : MBind M := λ A B f m st,
  match m st with
  | (Normal a, st') => f a st'
  | (Raise e, st') => (Raise e, st')
  | (Return code, st') => (Return code, st')
  end.

Definition raise {A : Type} (e : exception) : M A := λ st, (Raise e, st).
Definition return_ {A : Type} (code : Z) : M A := λ st, (Return code, st).

(** [for x in l: body x] *)
Fixpoint for_each {A : Type} (body : A → M ()) (l : list A) : M () :=
  match l with
  | [] => mret ()
  | x :: l' => body x;; for_each body l'
  end.

(** [row[0]] *)
Definition item0 (r : row) : M str :=
  match r with
  | [] => raise IndexError
  | word :: _ => mret word
  end.

(** [word in observed_set] *)
Definition observed (word : str) : M bool :=
  λ st, (Normal (bool_decide (word ∈ observed_set st)), st).

(** [observed_set.add(word)] *)
Definition observe (word : str) : M () :=
  λ st, (Normal (),
         State ({[word]} ∪ observed_set st) (written st) (calls st)).

(** [writer.writerow(row)] *)
Definition writerow (r : row) : M () :=
  λ st, (Normal (), State (observed_set st) (written st ++ [r]) (calls st)).

(** The body of [for row in reader]. *)
Definition row_body (r : row) : M () :=
  word ← item0 r;
  seen ← observed word;
  if seen : bool then mret () else
  observe word;;
  writerow r.

(** [observed_set = set()], before the loops. *)
Definition initial : state := State ∅ [] 0.

Section Service.
(** The completion service is outside of the program: [service k p] is
    what it gives to the request number [k] of the run, made with the
    prompt [p]. *)
Variable service : nat → prompt → completion.

Definition create (p : prompt) : M completion :=
  λ st, (Normal (service (calls st) p),
         State (observed_set st) (written st) (S (calls st))).

(** The body of [for prompt in [...]]: the request, the early [return 1]
    on an authentication error, and the loop over the rows. *)
Definition prompt_body (p : prompt) : M () :=
  answer ← create p;
  match answer with
  | AuthenticationError => return_ 1
  | Answer rows => for_each row_body rows
  end.

(** The body of [for batch in batches]. *)
Definition batch_body (batch : str) : M () :=
  for_each prompt_body (prompts batch).

(** The two loops and the [return 0] after them (the [print()] in between
    writes no row). *)
Definition aggregate (batches : list str) : M () :=
  for_each batch_body batches;;
  return_ 0.

(** The requests of a run and their answers, in the order of the run. *)
Definition requests (batches : list str) : list prompt :=
  batches ≫= prompts.

Fixpoint answers (k : nat) (ps : list prompt) : list completion :=
  match ps with
  | [] => []
  | p :: ps' => service k p :: answers (S k) ps'
  end.

Definition rows_of (answer : completion) : list row :=
  match answer with
  | Answer rows => rows
  | AuthenticationError => []
  end.

(** All the rows of a run whose requests are all answered, batch after
    batch and, within a batch, category after category. *)
Definition rows_read (batches : list str) : list row :=
  answers 0 (requests batches) ≫= rows_of.

(** Every request of the list, sent from request number [k] on, gets an
    answer. *)
Definition answered (k : nat) (ps : list prompt) : Prop :=
  Forall (λ answer, answer ≠ AuthenticationError) (answers k ps).
End Service.

(** Every row has a field, so that [row[0]] is there. *)
Definition with_fields (rows : list row) : Prop :=
  Forall (λ r, r ≠ []) rows.

(** ** First occurrences

    The reading of the deduplication that does without a set: a record
    stays, and the later records with its first field go. *)

Definition key (r : row) : option str := head r.

Fixpoint first_occurrences (rows : list row) : list row :=
  match rows with
  | [] => []
  | r :: rows' =>
      r :: filter (λ r', key r' ≠ key r) (first_occurrences rows')
  end.

(** The same on keys alone: the order in which the keys are first seen. *)
Fixpoint first_seen {A : Type} `{EqDecision A} (keys : list A) : list A :=
  match keys with
  | [] => []
  | k :: keys' => k :: filter (λ k', k' ≠ k) (first_seen keys')
  end.

(** A row passes an observed set when its first field is not in it. *)
Definition unseen (observed : gset str) (r : row) : Prop :=
  match key r with
  | Some word => word ∉ observed
  | None => True
  end.

#[global] Instance unseen_dec observed r : Decision (unseen observed r).
Proof. unfold unseen. destruct (key r); apply _. Defined.

(** The first fields of some rows, as a set. *)
Definition keys (rows : list row) : gset str := list_to_set (omap key rows).

(** ** Inputs of the examples *)

(** The text of the doctest of [split_text_into_batches] and its batches. *)
Definition hello_text : str :=
  lit "hello" ++ [LF] ++ lit "world" ++ [LF] ++ lit "early" ++ [LF]
  ++ lit "in the" ++ [LF] ++ lit "morning".

Definition hello_batches : list str :=
  [lit "hello" ++ [LF] ++ lit "world" ++ [LF];
   lit "early" ++ [LF]; lit "in the" ++ [LF]; lit "morning"].

(** A text whose third line has 501 characters, its line feed counted. *)
Definition overflow_text : str :=
  lit "one" ++ [LF] ++ lit "two" ++ [LF]
  ++ replicate 500 120%N ++ [LF] ++ lit "four".

(** A record of four columns for a word. *)
Definition card (word : string) : row :=
  [lit word; lit "translation"; lit "a line"; lit "the line translated"].

(** A record that lacks its fourth column. *)
Definition short_card : row := [lit "B"; lit "translation"; lit "a line"].

Definition mixed_blob : list row := [card "A"; short_card; card "C"].

Definition two_batches : list str :=
  [lit "first" ++ [LF]; lit "second" ++ [LF]].

(** The service gives the same record for the verbs of both batches (the
    requests 0 and 4) and no row otherwise. *)
Definition same_record_twice (k : nat) (p : prompt) : completion :=
  match k with
  | 0%nat | 4%nat => Answer [card "go"]
  | _ => Answer []
  end.

(** The first batch gives records keyed A and B, the second B and C. *)
Definition ab_then_bc (k : nat) (p : prompt) : completion :=
  match k with
  | 0%nat => Answer [card "A"; card "B"]
  | 4%nat => Answer [card "B"; card "C"]
  | _ => Answer []
  end.

(** Two keys that differ by case only. *)
Definition go_then_Go (k : nat) (p : prompt) : completion :=
  match k with
  | 0%nat => Answer [card "go"]
  | 1%nat => Answer [card "Go"]
  | _ => Answer []
  end.

(** ** The shape of a splitting

    The batches of a text as groups of its lines: in a greedy grouping each
    group, with the first line of the group after it, is longer than the
    maximum. *)
Inductive greedy (max_batch_length : Z) : list (list (list N)) → Prop :=
  | greedy_nil : greedy max_batch_length []
  | greedy_one g : greedy max_batch_length [g]
  | greedy_cons g line g' groups :
      len (join g) + len line > max_batch_length →
      greedy max_batch_length ((line :: g') :: groups) →
      greedy max_batch_length (g :: (line :: g') :: groups).

(** A string that ends with a line boundary. *)
Definition ends_line (s : str) : Prop :=
  ∃ c, last s = Some c ∧ is_linebreak c = true.

(** ** What the loop keeps

    The rows written have a first field each, no two the same, and the
    observed set holds these first fields and nothing else. *)
Definition consistent (st : state) : Prop :=
  observed_set st = keys (written st)
  ∧ NoDup (key <$> written st)
  ∧ with_fields (written st).

(** The second request about the second batch is refused. *)
Definition refused_at_5 (k : nat) (p : prompt) : completion :=
  match k with
  | 0%nat => Answer [card "A"; card "B"]
  | 4%nat => Answer [card "B"; card "C"]
  | 5%nat => AuthenticationError
  | _ => Answer []
  end.

(** ** [main], from the parsed arguments to the exit code

    The arguments as [parser.parse_args()] gives them; [None] is an option
    that was not given. *)
Record arguments := Args {
  source_language : str;
  target_language : str;
  text : option str;
  text_path : option str;
  openai_key_path : str
}.

(** The files as [main] finds them, by path: [pathlib.Path.exists],
    [is_file] and [read_text(encoding="utf-8")], which gives [None] when it
    raises. *)
Record files := Files {
  path_exists : str → bool;
  path_is_file : str → bool;
  read_text : str → option str
}.

(** What is not caught in [main]: the exception of reading [--text_path],
    the [assert] on the batches, and what the loop raises. *)
Inductive fault :=
  | ReadError
  | AssertionError
  | Uncaught (e : exception).

Inductive ending :=
  | Exit (code : Z)
  | Fault (f : fault).

(** How [main] ends, the rows it has handed to [writer.writerow] and the
    number of requests it has sent. The messages for [sys.stderr] and the
    empty line that [print()] adds after the rows are not kept. *)
Record outcome := Outcome {
  ending_of : ending;
  stdout_rows : list row;
  requests_sent : nat
}.

(** The row written before the loop. *)
Definition header (a : arguments) : row :=
  [source_language a; target_language a;
   lit "Phrase in " ++ source_language a;
   lit "Phrase in " ++ target_language a].

Definition main (fs : files) (service : nat → prompt → completion)
    (a : arguments) : outcome :=
  match text a, text_path a with
  | Some _, Some _ => Outcome (Exit 1) [] 0
  | None, None => Outcome (Exit 1) [] 0
  | given, path =>
      match
        match path with
        | Some p => read_text fs p
        | None => given
        end
      with
      | None => Outcome (Fault ReadError) [] 0
      | Some text =>
          if negb (path_exists fs (openai_key_path a)) then
            Outcome (Exit 1) [] 0
          else if negb (path_is_file fs (openai_key_path a)) then
            Outcome (Exit 1) [] 0
          else
            match read_text fs (openai_key_path a) with
            | None => Outcome (Exit 1) [] 0
            | Some openai_key =>
                match split_text_into_batches text 500 with
                | (_, Some error) => Outcome (Exit 1) [] 0
                | (None, None) => Outcome (Fault AssertionError) [] 0
                | (Some batches, None) =>
                    let '(sig, st) :=
                      for_each (batch_body service) batches initial in
                    Outcome
                      match sig with
                      | Normal _ => Exit 0
                      | Return code => Exit code
                      | Raise e => Fault (Uncaught e)
                      end
                      (header a :: written st) (calls st)
                end
            end
      end
  end.

(** The text that [main] works on when exactly one of [--text] and
    [--text_path] is given and the file, if any, can be read. *)
Definition input_text (fs : files) (a : arguments) : option str :=
  match text a, text_path a with
  | Some t, None => Some t
  | None, Some p => read_text fs p
  | _, _ => None
  end.

(** The key file is there, is a file and can be read. *)
Definition key_readable (fs : files) (a : arguments) : Prop :=
  path_exists fs (openai_key_path a) = true
  ∧ path_is_file fs (openai_key_path a) = true
  ∧ is_Some (read_text fs (openai_key_path a)).

(** Files and arguments for the examples: one key file, one text file. *)
Definition some_files : files :=
  Files (λ p, bool_decide (p = lit "openai-key.txt" ∨ p = lit "text.txt"))
        (λ p, bool_decide (p = lit "openai-key.txt" ∨ p = lit "text.txt"))
        (λ p, if bool_decide (p = lit "openai-key.txt") then Some (lit "sk")
              else if bool_decide (p = lit "text.txt") then Some hello_text
              else None).

Definition some_arguments (given : option str) (path : option str)
    : arguments :=
  Args (lit "Russian") (lit "English") given path (lit "openai-key.txt").

(** Every request is answered with one record whose key is the request
    number modulo two. *)
Definition two_words (k : nat) (p : prompt) : completion :=
  Answer [card (if Nat.even k then "A" else "B")].

(** ** [csv_to_anki.main]: from the rows of the CSV file to the notes

    The two loops of [src/extractflashcards/csv_to_anki.py] over the rows
    that [csv.reader] yields for the file of [--csv_path]. *)

(** A note as the second loop fills it: the fields of the model and the
    [guid]. The field [tts] is there when audio is synthesized. *)
Record note := Note {
  note_source : str;
  note_tts : option str;
  note_target : str;
  note_example_source : str;
  note_example_target : str;
  note_guid : str
}.

(** The first loop, [for i, row in enumerate(reader)]: the rows it says it
    ignores, each with the row number [i + 1] of its message. *)
Fixpoint ignored_rows (i : Z) (rows : list row) : list (Z * row) :=
  match rows with
  | [] => []
  | r :: rows' =>
      if bool_decide (i = 0) then ignored_rows (i + 1) rows'
      else if bool_decide (len r ≠ 4) then
        (i + 1, r) :: ignored_rows (i + 1) rows'
      else ignored_rows (i + 1) rows'
  end.

Section Anki.
(** [uid4] is the text of the random identifier of the run. The speech
    service is outside of the program: [tts_saved source lang] says
    whether [gtts.gTTS(text=source, lang=lang)] and [tts.save] go through;
    otherwise they raise, and the loop ends there. *)
Variable uid4 : str.
Variable tts_saved : str → str → bool.

(** The second loop: the notes handed to [collection.addNote], in order,
    and whether the loop went through all rows. *)
Fixpoint add_notes (synthesize_audio : option str) (i : Z)
    (rows : list row) : list note * bool :=
  match rows with
  | [] => ([], true)
  | r :: rows' =>
      if bool_decide (i = 0) then add_notes synthesize_audio (i + 1) rows'
      else
        match r with
        | [source; target; example_source; example_target] =>
            let guid := lit "card" ++ str_of_int i in
            match synthesize_audio with
            | None =>
                let '(notes, done) :=
                  add_notes synthesize_audio (i + 1) rows' in
                (Note source None target example_source example_target guid
                 :: notes, done)
            | Some lang =>
                if tts_saved source lang then
                  let name := uid4 ++ lit "-" ++ str_of_int i ++ lit ".mp3" in
                  let '(notes, done) :=
                    add_notes synthesize_audio (i + 1) rows' in
                  (Note source (Some (lit "[sound:" ++ name ++ lit "]"))
                     target example_source example_target guid
                   :: notes, done)
                else ([], false)
            end
        | _ => add_notes synthesize_audio (i + 1) rows'
        end
  end.
End Anki.

(** The four fields of a note, in the order of the columns. *)
Definition note_fields (n : note) : row :=
  [note_source n; note_target n; note_example_source n;
   note_example_target n].

(** A file of five rows: the header, a card, a short row, a card and an
    empty row. *)
Definition some_csv : list row :=
  [[lit "Russian"; lit "English"; lit "Phrase in Russian";
    lit "Phrase in English"];
   card "A"; short_card; card "C"; []].

(** The first card of [some_csv] as a note without audio. *)
Definition some_note : note :=
  Note (lit "A") None (lit "translation") (lit "a line")
    (lit "the line translated") (lit "card1").

(** * Proofs *)

(** Concrete runs: every request answered, every row with a field. *)
Ltac run_answered :=
  unfold answered; cbn; repeat constructor; discriminate.
Ltac run_with_fields :=
  unfold with_fields; cbn; repeat constructor; discriminate.

(** ** Facts about [len], [join] and [splitlines] *)

Lemma len_nonneg {A : Type} (l : list A) : 0 ≤ len l.
Proof. unfold len. lia. Qed.

Lemma len_app {A : Type} (l k : list A) : len (l ++ k) = len l + len k.
Proof. unfold len. rewrite length_app. lia. Qed.

Lemma len_zero {A : Type} (l : list A) : len l = 0 ↔ l = [].
Proof. unfold len. destruct l; simpl; split; intros; try done; lia. Qed.

Lemma join_snoc (parts : list str) (line : str) :
  join (parts ++ [line]) = join parts ++ line.
Proof. unfold join. rewrite concat_app. simpl. by rewrite app_nil_r. Qed.

(** The lines put back together are what was scanned. *)
Lemma splitlines_from_join (s cur : str) :
  join (splitlines_from cur s) = cur ++ s.
Proof.
  unfold join. revert cur.
  induction s as [s IH] using (induction_ltof1 _ (@length N)).
  unfold ltof in IH. intros cur.
  destruct s as [|c s']; simpl.
  - destruct cur; simpl; by rewrite ?app_nil_r.
  - destruct (is_linebreak c).
    + destruct s' as [|c' s''].
      * simpl. by rewrite app_nil_r.
      * destruct (bool_decide (c = CR) && bool_decide (c' = LF));
          cbn [concat]; rewrite IH by (simpl; lia);
          by rewrite <- app_assoc.
    + rewrite (IH s') by (simpl; lia). by rewrite <- app_assoc.
Qed.

(** No line is empty: a line holds its terminator, or the characters that
    end the text. *)
Lemma splitlines_from_nonempty (s cur : str) :
  Forall (λ line, line ≠ []) (splitlines_from cur s).
Proof.
  revert cur.
  induction s as [s IH] using (induction_ltof1 _ (@length N)).
  unfold ltof in IH. intros cur.
  destruct s as [|c s']; simpl.
  - destruct cur; by repeat constructor.
  - destruct (is_linebreak c).
    + destruct s' as [|c' s''].
      * repeat constructor. by destruct cur.
      * destruct (bool_decide (c = CR) && bool_decide (c' = LF));
          (constructor; [by destruct cur | apply IH; simpl; lia]).
    + apply IH. simpl. lia.
Qed.

Lemma splitlines_join (text : str) : join (splitlines text) = text.
Proof. apply splitlines_from_join. Qed.

Lemma splitlines_nonempty (text : str) :
  Forall (λ line, line ≠ []) (splitlines text).
Proof. apply splitlines_from_nonempty. Qed.

(** ** The invariants of the batching loop *)

Section BatchLoop.
Variable max_batch_length : Z.

(** The loop ends in one of its two [return] statements. *)
Lemma batch_lines_cases (lines : list str) :
  ∀ i result batch_parts current_len,
    (∃ batches, batch_lines max_batch_length i lines result batch_parts
                  current_len = (Some batches, None))
    ∨ (∃ error, batch_lines max_batch_length i lines result batch_parts
                  current_len = (None, Some error)).
Proof.
  induction lines as [|line lines' IH]; intros; simpl.
  - case_bool_decide; left; eauto.
  - case_bool_decide; [right; eauto|].
    case_bool_decide; apply IH.
Qed.

(** What is flushed and what is pending is the text read so far, so at
    the end the batches are the whole text. *)
Lemma batch_lines_join (lines : list str) :
  ∀ i result batch_parts current_len batches,
    (batch_lines max_batch_length i lines result batch_parts
       current_len).1 = Some batches →
    join batches = join result ++ join batch_parts ++ join lines.
Proof.
  induction lines as [|line lines' IH]; intros * Hrun; simpl in Hrun.
  - case_bool_decide as Hparts; simpl in Hrun; simplify_eq.
    + rewrite join_snoc. by rewrite app_nil_r.
    + assert (batch_parts = []) as ->
        by (apply len_zero; pose proof (len_nonneg batch_parts); lia).
      simpl. by rewrite app_nil_r.
  - case_bool_decide; [done|].
    case_bool_decide; apply IH in Hrun; rewrite Hrun.
    + rewrite !join_snoc. simpl. by rewrite <- !app_assoc.
    + rewrite join_snoc. simpl. by rewrite <- !app_assoc.
Qed.

(** [current_len] is the length of the pending batch, which fits. *)
Lemma batch_lines_bound (lines : list str) :
  ∀ i result batch_parts current_len batches,
    (batch_lines max_batch_length i lines result batch_parts
       current_len).1 = Some batches →
    current_len = len (join batch_parts) →
    current_len ≤ max_batch_length →
    Forall (λ batch, len batch ≤ max_batch_length) result →
    Forall (λ batch, len batch ≤ max_batch_length) batches.
Proof.
  induction lines as [|line lines' IH];
    intros * Hrun Hlen Hfit Hres; simpl in Hrun.
  - case_bool_decide; simpl in Hrun; simplify_eq; [|done].
    apply Forall_app. split; [done|]. by repeat constructor.
  - case_bool_decide; [done|].
    case_bool_decide; refine (IH _ _ _ _ _ Hrun _ _ _).
    + by rewrite join_snoc, len_app.
    + lia.
    + apply Forall_app. split; [done|]. repeat constructor. lia.
    + rewrite join_snoc, len_app. lia.
    + lia.
    + done.
Qed.

(** A flush happens only after a line was taken, so no batch is empty. *)
Lemma batch_lines_nonempty (lines : list str) :
  ∀ i result batch_parts current_len batches,
    (batch_lines max_batch_length i lines result batch_parts
       current_len).1 = Some batches →
    current_len = len (join batch_parts) →
    Forall (λ line, line ≠ []) lines →
    Forall (λ line, line ≠ []) batch_parts →
    Forall (λ batch, batch ≠ []) result →
    Forall (λ batch, batch ≠ []) batches.
Proof.
  induction lines as [|line lines' IH];
    intros * Hrun Hlen Hlines Hparts Hres; simpl in Hrun.
  - case_bool_decide as Hsome; simpl in Hrun; simplify_eq; [|done].
    apply Forall_app. split; [done|]. repeat constructor.
    destruct Hparts as [|part parts Hpart _]; [done|].
    simpl. by destruct part.
  - inversion_clear Hlines as [|? ? Hline Hlines'].
    case_bool_decide as Hlong; [done|].
    case_bool_decide as Hflush; refine (IH _ _ _ _ _ Hrun _ _ _ _).
    + by rewrite join_snoc, len_app.
    + done.
    + by repeat constructor.
    + apply Forall_app. split; [done|]. repeat constructor.
      intros Hempty. rewrite Hempty in Hlen. unfold len in *. simpl in *.
      lia.
    + rewrite join_snoc, len_app. lia.
    + done.
    + apply Forall_app. split; [done|]. by repeat constructor.
    + done.
Qed.

(** The first line that does not fit ends the call, whatever was
    gathered before it. *)
Lemma batch_lines_too_long (before : list str) :
  ∀ line after i result batch_parts current_len,
    Forall (λ l, len l ≤ max_batch_length) before →
    len line > max_batch_length →
    batch_lines max_batch_length i (before ++ line :: after) result
      batch_parts current_len
    = (None,
       Some (line_too_long (i + len before + 1) (len line)
               max_batch_length)).
Proof.
  induction before as [|l before' IH]; intros * Hbefore Hline; simpl.
  - rewrite bool_decide_eq_true_2 by done.
    by replace (i + len [] + 1) with (i + 1) by (unfold len; simpl; lia).
  - inversion_clear Hbefore as [|? ? Hl Hbefore'].
    rewrite bool_decide_eq_false_2 by lia.
    case_bool_decide; rewrite IH by done;
      by replace (i + 1 + len before' + 1) with (i + len (l :: before') + 1)
        by (unfold len; simpl; lia).
Qed.
End BatchLoop.

(** ** The loop over rows, in closed form *)

Lemma unseen_empty (r : row) : unseen ∅ r.
Proof. unfold unseen. destruct (key r); set_solver. Qed.

Lemma unseen_union (X Y : gset str) (r : row) :
  unseen (X ∪ Y) r ↔ unseen X r ∧ unseen Y r.
Proof. unfold unseen. destruct (key r); set_solver. Qed.

Lemma unseen_singleton (word : str) (r : row) :
  unseen {[word]} r ↔ key r ≠ Some word.
Proof.
  unfold unseen. destruct (key r) as [word'|]; [|done].
  rewrite not_elem_of_singleton. split; congruence.
Qed.

Lemma keys_cons (word : str) (fields : list str) (rows : list row) :
  keys ((word :: fields) :: rows) = {[word]} ∪ keys rows.
Proof. done. Qed.

Lemma keys_app (rows rows' : list row) :
  keys (rows ++ rows') = keys rows ∪ keys rows'.
Proof. unfold keys. by rewrite omap_app, list_to_set_app_L. Qed.

Lemma elem_of_keys (word : str) (rows : list row) :
  word ∈ keys rows ↔ ∃ r, r ∈ rows ∧ key r = Some word.
Proof. unfold keys. rewrite elem_of_list_to_set, list_elem_of_omap. done. Qed.

Lemma filter_unseen_empty (rows : list row) : filter (unseen ∅) rows = rows.
Proof.
  induction rows as [|r rows IH]; [done|].
  rewrite filter_cons_True by apply unseen_empty. by rewrite IH.
Qed.

(** One turn of the loop over rows, for a row that has a first field. *)
Lemma row_body_cons (word : str) (fields : list str) (st : state) :
  row_body (word :: fields) st
  = if bool_decide (word ∈ observed_set st)
    then (Normal (), st)
    else (Normal (),
          State ({[word]} ∪ observed_set st)
            (written st ++ [word :: fields]) (calls st)).
Proof.
  unfold row_body, item0, observed, observe, writerow.
  unfold mbind, M_bind, mret, M_ret. by case_bool_decide.
Qed.

(** A row without fields stops the run at [row[0]]. *)
Lemma row_body_nil (st : state) : row_body [] st = (Raise IndexError, st).
Proof. done. Qed.

Lemma for_each_cons {A : Type} (body : A → M ()) (x : A) (l : list A)
    (st : state) :
  for_each body (x :: l) st
  = match body x st with
    | (Normal _, st') => for_each body l st'
    | (Raise e, st') => (Raise e, st')
    | (Return code, st') => (Return code, st')
    end.
Proof. done. Qed.

Lemma for_each_app {A : Type} (body : A → M ()) (l k : list A) (st : state) :
  for_each body (l ++ k) st
  = match for_each body l st with
    | (Normal _, st') => for_each body k st'
    | (Raise e, st') => (Raise e, st')
    | (Return code, st') => (Return code, st')
    end.
Proof.
  revert st. induction l as [|x l IH]; intros st; [done|].
  rewrite <- app_comm_cons, !for_each_cons.
  destruct (body x st) as [[[]|e|code] st']; by rewrite ?IH.
Qed.

(** The rows written by the loop over [rows] are their first occurrences,
    less those already observed when the loop starts. *)
Lemma rows_loop (rows : list row) :
  Forall (λ r, r ≠ []) rows →
  ∀ observed out k,
    for_each row_body rows (State observed out k)
    = (Normal (),
       State (keys rows ∪ observed)
         (out ++ filter (unseen observed) (first_occurrences rows)) k).
Proof.
  induction 1 as [|r rows Hr _ IH]; intros observed out k.
  - simpl. unfold mret, M_ret, keys. simpl.
    by rewrite app_nil_r, (left_id_L ∅ (∪)).
  - destruct r as [|word fields]; [done|].
    rewrite for_each_cons, row_body_cons. simpl.
    case_bool_decide as Hseen; rewrite IH, keys_cons; do 2 f_equal.
    + set_solver.
    + rewrite filter_cons_False by (unfold unseen; simpl; tauto).
      rewrite list_filter_filter_l; [done|].
      intros r. unfold unseen. destruct (key r) as [word'|]; [|done].
      simpl. intros Hnew Heq. congruence.
    + set_solver.
    + rewrite filter_cons_True by done.
      rewrite list_filter_filter, <- app_assoc. simpl. do 2 f_equal.
      apply list_filter_iff. intros r.
      rewrite unseen_union, unseen_singleton. simpl. tauto.
Qed.

Lemma first_occurrences_app (rows rows' : list row) :
  Forall (λ r, r ≠ []) rows →
  first_occurrences (rows ++ rows')
  = first_occurrences rows
    ++ filter (unseen (keys rows)) (first_occurrences rows').
Proof.
  induction 1 as [|r rows Hr _ IH]; simpl.
  - symmetry. apply filter_unseen_empty.
  - destruct r as [|word fields]; [done|].
    rewrite IH, filter_app, list_filter_filter, keys_cons. do 2 f_equal.
    apply list_filter_iff. intros r.
    rewrite unseen_union, unseen_singleton. simpl. tauto.
Qed.

(** ** The loops over prompts and batches, in closed form *)

Section Run.
Variable service : nat → prompt → completion.

Lemma prompt_body_answer (p : prompt) (rows : list row) (st : state) :
  service (calls st) p = Answer rows →
  prompt_body service p st
  = for_each row_body rows
      (State (observed_set st) (written st) (S (calls st))).
Proof.
  intros Hanswer. unfold prompt_body, create, mbind, M_bind.
  by rewrite Hanswer.
Qed.

Lemma prompt_body_refused (p : prompt) (st : state) :
  service (calls st) p = AuthenticationError →
  prompt_body service p st
  = (Return 1, State (observed_set st) (written st) (S (calls st))).
Proof.
  intros Hanswer. unfold prompt_body, create, mbind, M_bind.
  by rewrite Hanswer.
Qed.

Lemma prompts_loop (ps : list prompt) :
  ∀ k observed out,
    answered service k ps →
    with_fields (answers service k ps ≫= rows_of) →
    for_each (prompt_body service) ps (State observed out k)
    = (Normal (),
       State (keys (answers service k ps ≫= rows_of) ∪ observed)
         (out ++ filter (unseen observed)
                   (first_occurrences (answers service k ps ≫= rows_of)))
         (k + length ps)).
Proof.
  unfold answered, with_fields.
  induction ps as [|p ps IH]; intros k observed out Hanswered Hfields.
  - simpl. unfold mret, M_ret, keys. simpl.
    by rewrite app_nil_r, (left_id_L ∅ (∪)), Nat.add_0_r.
  - cbn [answers] in *. rewrite bind_cons in *.
    apply Forall_cons in Hanswered as [Hp Hps].
    apply Forall_app in Hfields as [Hrows Hrest].
    destruct (service k p) as [rows|] eqn:Hanswer; [|done].
    rewrite for_each_cons, (prompt_body_answer _ rows) by done.
    cbn [rows_of observed_set written calls] in *.
    rewrite rows_loop, IH by done.
    rewrite first_occurrences_app, keys_app, filter_app by done.
    rewrite list_filter_filter, <- app_assoc.
    do 2 f_equal; [set_solver| |simpl; lia].
    do 2 f_equal. apply list_filter_iff. intros r.
    rewrite unseen_union. tauto.
Qed.

(** The two outer loops walk the requests of the run one after the
    other. *)
Lemma batches_loop (batches : list str) (st : state) :
  for_each (batch_body service) batches st
  = for_each (prompt_body service) (requests batches) st.
Proof.
  revert st. induction batches as [|batch batches IH]; intros st; [done|].
  unfold requests. rewrite bind_cons, for_each_cons, for_each_app.
  unfold batch_body at 1.
  destruct (for_each _ (prompts batch) st) as [[[]|e|code] st']; [|done..].
  apply IH.
Qed.

(** A run whose requests are all answered with rows that have a field
    goes to [return 0] and writes the first occurrences of the rows it
    read. *)
Lemma aggregate_first_occurrences (batches : list str) :
  answered service 0 (requests batches) →
  with_fields (rows_read service batches) →
  aggregate service batches initial
  = (Return 0,
     State (keys (rows_read service batches))
       (first_occurrences (rows_read service batches))
       (length (requests batches))).
Proof.
  intros Hanswered Hfields.
  unfold aggregate, initial, mbind, M_bind.
  rewrite batches_loop, prompts_loop by done.
  fold (rows_read service batches).
  by rewrite filter_unseen_empty, (right_id_L ∅ (∪)).
Qed.
End Run.

(** ** Properties of first occurrences *)

Lemma first_occurrences_sublist (rows : list row) :
  first_occurrences rows `sublist_of` rows.
Proof.
  induction rows as [|r rows IH]; simpl; [done|].
  apply sublist_skip. etrans; [apply sublist_filter|done].
Qed.

Lemma first_occurrences_keys (rows : list row) :
  NoDup (key <$> first_occurrences rows).
Proof.
  induction rows as [|r rows IH]; simpl; [constructor|].
  constructor.
  - rewrite list_elem_of_fmap. intros (r' & Hkey & Hin).
    apply list_elem_of_filter in Hin as [Hne _]. congruence.
  - apply (sublist_NoDup _ (key <$> first_occurrences rows)); [done|].
    apply fmap_sublist, sublist_filter.
Qed.

Lemma first_occurrences_elem_of (rows : list row) (r : row) :
  r ∈ rows → ∃ r', r' ∈ first_occurrences rows ∧ key r' = key r.
Proof.
  induction rows as [|r0 rows IH]; [by intros ?%elem_of_nil|].
  intros [->|Hin]%elem_of_cons; simpl.
  - exists r0. split; [left|done].
  - destruct (decide (key r = key r0)) as [Heq|Hne].
    + exists r0. split; [left|done].
    + destruct (IH Hin) as (r' & Hin' & Hkey). exists r'. split; [|done].
      right. apply list_elem_of_filter. split; [congruence|done].
Qed.

(** The keys of the first occurrences are the keys in first-seen order. *)
Lemma first_occurrences_first_seen (rows : list row) :
  key <$> first_occurrences rows = first_seen (key <$> rows).
Proof.
  induction rows as [|r rows IH]; [done|].
  cbn [first_occurrences]. rewrite !fmap_cons. cbn [first_seen].
  f_equal. rewrite <- IH. clear IH.
  induction (first_occurrences rows) as [|r' rows' IH]; [done|].
  rewrite fmap_cons, !filter_cons.
  destruct (decide (key r' ≠ key r)); by rewrite ?fmap_cons, IH.
Qed.

(** ** The text of the error *)

Lemma lit_String (a : Ascii.ascii) (s : string) :
  lit (String a s) = Ascii.N_of_ascii a :: lit s.
Proof. done. Qed.

(** A literal tells its string, and the decimal text of a number tells the
    number. *)
Lemma lit_inj (s1 s2 : string) : lit s1 = lit s2 → s1 = s2.
Proof.
  unfold lit. intros Heq.
  rewrite <- (String.string_of_list_ascii_of_string s1).
  rewrite <- (String.string_of_list_ascii_of_string s2). f_equal.
  revert Heq. generalize (String.list_ascii_of_string s2).
  induction (String.list_ascii_of_string s1) as [|a1 l1 IH];
    intros [|a2 l2] Heq; simplify_eq/=; [done|].
  f_equal; [|by apply IH].
  rewrite <- (Ascii.ascii_N_embedding a1), <- (Ascii.ascii_N_embedding a2).
  by f_equal.
Qed.

Lemma str_of_int_inj (i j : Z) : str_of_int i = str_of_int j → i = j.
Proof. unfold str_of_int. intros Heq%lit_inj. by apply (inj pretty). Qed.

(** The decimal text of a number holds digits and the minus sign only. *)
Lemma pretty_N_go_chars (x : N) :
  ∀ s,
    Forall (λ c, number_char c = true) (lit s) →
    Forall (λ c, number_char c = true) (lit (pretty_N_go x s)).
Proof.
  induction (N.lt_wf_0 x) as [x _ IH]. intros s Hs.
  destruct (decide (0 < x)%N) as [Hx|Hx].
  - rewrite pretty_N_go_step by done.
    apply IH; [by apply N.div_lt|].
    rewrite lit_String. constructor; [|done].
    unfold pretty_N_char. by repeat case_match.
  - by replace x with 0%N by lia.
Qed.

Lemma str_of_int_chars (n : Z) :
  Forall (λ c, number_char c = true) (str_of_int n).
Proof.
  assert (∀ x : N, Forall (λ c, number_char c = true) (lit (pretty x)))
    as Hnat.
  { intros x. unfold pretty, pretty_N.
    case_decide; [by repeat constructor|].
    apply pretty_N_go_chars. constructor. }
  unfold str_of_int. destruct n as [|p|p].
  - by repeat constructor.
  - apply (Hnat (N.pos p)).
  - change (pretty (Z.neg p))
      with (String (Ascii.ascii_of_N 45) (pretty (N.pos p))).
    rewrite lit_String. constructor; [done|]. apply Hnat.
Qed.

(** Two texts that go up to the same character, which neither holds before,
    are cut at the same place. *)
Lemma cut_at (d : N) (a a' rest rest' : str) :
  d ∉ a → d ∉ a' →
  a ++ d :: rest = a' ++ d :: rest' →
  a = a' ∧ rest = rest'.
Proof.
  revert a'. induction a as [|c a IH]; intros [|c' a'] Ha Ha' Heq;
    simplify_eq/=.
  - done.
  - set_solver.
  - set_solver.
  - destruct (IH a') as [-> ->]; [set_solver..|done|done].
Qed.

Lemma str_of_int_without (d : N) (n : Z) :
  number_char d = false → d ∉ str_of_int n.
Proof.
  intros Hd Hin.
  pose proof (str_of_int_chars n) as Hchars.
  rewrite Forall_forall in Hchars. apply Hchars in Hin. congruence.
Qed.

(** The error tells its three numbers: two errors with the same text are
    about the same line number, the same length and the same maximum. *)
Lemma line_too_long_inj (number observed maximum number' observed'
    maximum' : Z) :
  line_too_long number observed maximum
  = line_too_long number' observed' maximum' →
  number = number' ∧ observed = observed' ∧ maximum = maximum'.
Proof.
  unfold line_too_long. intros Heq.
  apply app_inv_head in Heq.
  change (lit " is too long (got ")
    with (32%N :: lit "is too long (got ") in Heq.
  change (lit ", max. is ") with (44%N :: lit " max. is ") in Heq.
  change (lit ").") with (41%N :: lit ".") in Heq.
  cbn [app] in Heq.
  apply cut_at in Heq as [Hnumber Heq]; [|by apply str_of_int_without..].
  apply app_inv_head in Heq.
  apply cut_at in Heq as [Hobserved Heq]; [|by apply str_of_int_without..].
  apply app_inv_head in Heq.
  apply cut_at in Heq as [Hmaximum _]; [|by apply str_of_int_without..].
  by repeat split; apply str_of_int_inj.
Qed.

(** * The batcher *)

(** C1. Round trip: for every text and every maximum above zero, when
    [split_text_into_batches] returns batches, the batches joined in order
    are the text. This is the first [@ensure] of the function. *)
Theorem split_round_trip (text : str) (max_batch_length : Z)
    (batches : list str) :
  max_batch_length > 0 →
  (split_text_into_batches text max_batch_length).1 = Some batches →
  join batches = text.
Proof.
  intros _ Hrun. apply batch_lines_join in Hrun. rewrite Hrun. simpl.
  apply splitlines_join.
Qed.

Lemma split_round_trip_witness :
  12 > 0
  ∧ (split_text_into_batches hello_text 12).1 = Some hello_batches
  ∧ join hello_batches = hello_text.
Proof.
  split; [lia|]. split; [vm_compute; reflexivity|].
  apply (split_round_trip hello_text 12 hello_batches);
    [lia | vm_compute; reflexivity].
Defined.

(** C2. Bound: for every text and every maximum above zero, when
    [split_text_into_batches] returns batches, no batch is longer than the
    maximum. This is the second [@ensure] of the function. *)
Theorem split_bound (text : str) (max_batch_length : Z)
    (batches : list str) :
  max_batch_length > 0 →
  (split_text_into_batches text max_batch_length).1 = Some batches →
  Forall (λ batch, len batch ≤ max_batch_length) batches.
Proof.
  intros Hmax Hrun.
  refine (batch_lines_bound _ _ _ _ _ _ _ Hrun _ _ _); [done|lia|done].
Qed.

Lemma split_bound_witness :
  12 > 0
  ∧ (split_text_into_batches hello_text 12).1 = Some hello_batches
  ∧ Forall (λ batch, len batch ≤ 12) hello_batches.
Proof.
  split; [lia|]. split; [vm_compute; reflexivity|].
  apply (split_bound hello_text 12 hello_batches);
    [lia | vm_compute; reflexivity].
Defined.

(** Any line that is too long has a first one before it, or is the first. *)
Lemma first_too_long (max_batch_length : Z) (lines : list str) :
  (∃ line, line ∈ lines ∧ len line > max_batch_length) →
  ∃ before line after,
    lines = before ++ line :: after
    ∧ Forall (λ l, len l ≤ max_batch_length) before
    ∧ len line > max_batch_length.
Proof.
  induction lines as [|l lines IH]; intros (line & Hin & Hlong).
  - by apply elem_of_nil in Hin.
  - destruct (decide (len l > max_batch_length)) as [Hl|Hl].
    + by exists [], l, lines.
    + apply elem_of_cons in Hin as [->|Hin]; [done|].
      destruct IH as (before & first & after & -> & Hfit & Hfirst); [eauto|].
      exists (l :: before), first, after. split; [done|].
      split; [|done]. constructor; [lia|done].
Qed.

(** C5. Overflow: for every text with a line longer than the maximum,
    [split_text_into_batches] returns no batches and the error "The line N
    is too long (got L, max. is M)." where N is the 1-based number of the
    first such line, L the length of that line and M the maximum, all three
    in decimal: the lines before it fit, and the call ends at it. The text
    of the error tells these three numbers and no others. The text whose
    line 3 has 501 characters, split with a maximum of 500, is the witness
    below. *)
Theorem split_line_too_long (text : str) (max_batch_length : Z) :
  (∃ line, line ∈ splitlines text ∧ len line > max_batch_length) →
  ∃ (i : nat) (line : str),
    splitlines text !! i = Some line
    ∧ len line > max_batch_length
    ∧ (∀ (j : nat) (l : str),
         (j < i)%nat → splitlines text !! j = Some l →
         len l ≤ max_batch_length)
    ∧ split_text_into_batches text max_batch_length
      = (None,
         Some (lit "The line " ++ str_of_int (Z.of_nat i + 1)
               ++ lit " is too long (got " ++ str_of_int (len line)
               ++ lit ", max. is " ++ str_of_int max_batch_length
               ++ lit ")."))
    ∧ (∀ number observed maximum : Z,
         split_text_into_batches text max_batch_length
         = (None,
            Some (lit "The line " ++ str_of_int number
                  ++ lit " is too long (got " ++ str_of_int observed
                  ++ lit ", max. is " ++ str_of_int maximum ++ lit ").")) →
         number = Z.of_nat i + 1
         ∧ observed = len line
         ∧ maximum = max_batch_length).
Proof.
  intros (before & line & after & Hlines & Hfit & Hlong)%first_too_long.
  exists (length before), line. unfold split_text_into_batches.
  rewrite Hlines, batch_lines_too_long by done.
  split; [by rewrite list_lookup_middle|]. split; [done|]. split.
  - intros j l Hj Hl. rewrite lookup_app_l in Hl by done.
    by eapply Forall_lookup_1 in Hfit.
  - split; [done|]. intros number observed maximum Hsame.
    assert (Some (line_too_long (Z.of_nat (length before) + 1) (len line)
                    max_batch_length)
            = Some (line_too_long number observed maximum)) as Hsome
      by exact (f_equal snd Hsame).
    apply (inj Some) in Hsome.
    destruct (line_too_long_inj _ _ _ _ _ _ Hsome) as (? & ? & ?).
    by split_and!.
Qed.

Lemma split_line_too_long_witness :
  (∃ line, line ∈ splitlines overflow_text ∧ len line > 500)
  ∧ split_text_into_batches overflow_text 500
    = (None, Some (lit "The line 3 is too long (got 501, max. is 500).")).
Proof.
  assert (∃ line, line ∈ splitlines overflow_text ∧ len line > 500)
    as Hlong.
  { exists (replicate 500 120%N ++ [LF]). split; [|vm_compute; reflexivity].
    apply list_elem_of_lookup. exists 2%nat. vm_compute. reflexivity. }
  split; [exact Hlong|].
  destruct (split_line_too_long overflow_text 500 Hlong)
    as (i & line & Hi & Hline & _ & Hsplit & _).
  rewrite Hsplit. clear Hsplit.
  assert (splitlines overflow_text
          = [lit "one" ++ [LF]; lit "two" ++ [LF];
             replicate 500 120%N ++ [LF]; lit "four"]) as Hlines
    by (vm_compute; reflexivity).
  rewrite Hlines in Hi.
  destruct i as [|[|[|[|i]]]]; simplify_eq/=;
    solve [vm_compute in Hline; discriminate | vm_compute; reflexivity].
Defined.

(** The call of the witness, evaluated: line 3, got 501, max. is 500. *)
Example split_overflow_text :
  split_text_into_batches overflow_text 500
  = (None, Some (lit "The line 3 is too long (got 501, max. is 500).")).
Proof. vm_compute. reflexivity. Qed.

(** C6. For every text and every maximum above zero, the pair returned by
    [split_text_into_batches] holds either batches and no error, or an error
    and no batches. This is the exclusive or of the [@ensure] on the result;
    the function returns the pair on both paths and raises nothing. *)
Theorem split_batches_xor_error (text : str) (max_batch_length : Z) :
  max_batch_length > 0 →
  (∃ batches,
     split_text_into_batches text max_batch_length = (Some batches, None))
  ∨ (∃ error,
       split_text_into_batches text max_batch_length = (None, Some error)).
Proof. intros _. apply batch_lines_cases. Qed.

Lemma split_batches_xor_error_witness :
  12 > 0
  ∧ ((∃ batches,
        split_text_into_batches hello_text 12 = (Some batches, None))
     ∨ (∃ error,
          split_text_into_batches hello_text 12 = (None, Some error))).
Proof.
  split; [lia|]. apply (split_batches_xor_error hello_text 12). lia.
Defined.

(** C8. The doctest: the text of five lines "hello", "world", "early",
    "in the", "morning" (line feeds between them), split with a maximum of
    12, gives the four batches ["hello\nworld\n", "early\n", "in the\n",
    "morning"] and no error. *)
Theorem split_doctest :
  split_text_into_batches hello_text 12 = (Some hello_batches, None).
Proof. vm_compute. reflexivity. Qed.

(** C9. For every text and every maximum above zero, no batch returned by
    [split_text_into_batches] is the empty string, and the empty text gives
    the empty list of batches and no error. *)
Theorem split_no_empty_batch (text : str) (max_batch_length : Z) :
  max_batch_length > 0 →
  (∀ batches,
     (split_text_into_batches text max_batch_length).1 = Some batches →
     Forall (λ batch, batch ≠ []) batches)
  ∧ split_text_into_batches [] max_batch_length = (Some [], None).
Proof.
  intros _. split; [|done]. intros batches Hrun.
  refine (batch_lines_nonempty _ _ _ _ _ _ _ Hrun _ _ _ _); try done.
  apply splitlines_nonempty.
Qed.

Lemma split_no_empty_batch_witness :
  12 > 0
  ∧ (∀ batches,
       (split_text_into_batches hello_text 12).1 = Some batches →
       Forall (λ batch, batch ≠ []) batches)
  ∧ split_text_into_batches [] 12 = (Some [], None).
Proof.
  split; [lia|]. apply (split_no_empty_batch hello_text 12). lia.
Defined.

(** * The aggregation loop *)

(** C3. Deduplication: in a run whose requests are all answered with rows
    that have a first field, the rows written are the first occurrences of
    the rows read over all batches and categories, where two rows are the
    same occurrence when their first fields are equal as strings: a row is
    written where its first field is first seen, every later row with that
    field is dropped, and the observed set ends as the set of the first
    fields of all rows read. The same record of four columns given for two
    batches is the witness: it is written once. *)
Theorem dedup_first_occurrence (service : nat → prompt → completion)
    (batches : list str) :
  answered service 0 (requests batches) →
  with_fields (rows_read service batches) →
  ∃ st,
    aggregate service batches initial = (Return 0, st)
    ∧ written st = first_occurrences (rows_read service batches)
    ∧ written st `sublist_of` rows_read service batches
    ∧ NoDup (key <$> written st)
    ∧ (∀ word,
         word ∈ observed_set st
         ↔ ∃ r, r ∈ rows_read service batches ∧ key r = Some word).
Proof.
  intros Hanswered Hfields. eexists. split.
  { by apply aggregate_first_occurrences. }
  cbn [written observed_set]. split; [done|].
  split; [apply first_occurrences_sublist|].
  split; [apply first_occurrences_keys|].
  intros word. apply elem_of_keys.
Qed.

Lemma dedup_first_occurrence_witness :
  answered same_record_twice 0 (requests two_batches)
  ∧ with_fields (rows_read same_record_twice two_batches)
  ∧ rows_read same_record_twice two_batches = [card "go"; card "go"]
  ∧ ∃ st,
      aggregate same_record_twice two_batches initial = (Return 0, st)
      ∧ written st
        = first_occurrences (rows_read same_record_twice two_batches)
      ∧ written st `sublist_of` rows_read same_record_twice two_batches
      ∧ NoDup (key <$> written st)
      ∧ (∀ word, word ∈ observed_set st
                 ↔ ∃ r, r ∈ rows_read same_record_twice two_batches
                        ∧ key r = Some word).
Proof.
  split; [run_answered|]. split; [run_with_fields|].
  split; [reflexivity|].
  apply (dedup_first_occurrence same_record_twice two_batches);
    [run_answered | run_with_fields].
Defined.

(** The run of the witness, evaluated: one record, and it is the first. *)
Example same_record_twice_written :
  written (aggregate same_record_twice two_batches initial).2 = [card "go"].
Proof. vm_compute. reflexivity. Qed.

(** The key is taken as it is: "go" and "Go" are two keys. *)
Example case_is_kept :
  written (aggregate go_then_Go two_batches initial).2
  = [card "go"; card "Go"].
Proof. vm_compute. reflexivity. Qed.

(** C7. Order: in a run whose requests are all answered with rows that
    have a first field, the keys of the rows written, in the order they are
    written, are the keys of the rows read, batch after batch and category
    after category, in the order in which each is first seen. Two batches
    that give records keyed A, B and B, C are the witness: A, B, C. *)
Theorem output_first_seen_order (service : nat → prompt → completion)
    (batches : list str) :
  answered service 0 (requests batches) →
  with_fields (rows_read service batches) →
  key <$> written (aggregate service batches initial).2
  = first_seen (key <$> rows_read service batches).
Proof.
  intros Hanswered Hfields.
  rewrite aggregate_first_occurrences by done.
  apply first_occurrences_first_seen.
Qed.

Lemma output_first_seen_order_witness :
  answered ab_then_bc 0 (requests two_batches)
  ∧ with_fields (rows_read ab_then_bc two_batches)
  ∧ key <$> rows_read ab_then_bc two_batches
  = [Some (lit "A"); Some (lit "B"); Some (lit "B"); Some (lit "C")]
  ∧ first_seen (key <$> rows_read ab_then_bc two_batches)
    = [Some (lit "A"); Some (lit "B"); Some (lit "C")]
  ∧ key <$> written (aggregate ab_then_bc two_batches initial).2
    = first_seen (key <$> rows_read ab_then_bc two_batches).
Proof.
  split; [run_answered|]. split; [run_with_fields|].
  split; [reflexivity|]. split; [vm_compute; reflexivity|].
  apply (output_first_seen_order ab_then_bc two_batches);
    [run_answered | run_with_fields].
Defined.

(** The run of the witness, evaluated. *)
Example ab_then_bc_written :
  written (aggregate ab_then_bc two_batches initial).2
  = [card "A"; card "B"; card "C"].
Proof. vm_compute. reflexivity. Qed.

(** C10. For every row with at least one field, the body of the loop over
    rows looks at the first field and at the observed set only: when the
    field is in the set the state stays as it is, and otherwise the field
    joins the set and the row is written as it is, whatever the number of
    its fields. No exception is raised on either path. *)
Theorem row_decision (r : row) (st : state) :
  r ≠ [] →
  ∃ word,
    key r = Some word
    ∧ row_body r st
      = if bool_decide (word ∈ observed_set st)
        then (Normal (), st)
        else (Normal (),
              State ({[word]} ∪ observed_set st) (written st ++ [r])
                (calls st)).
Proof.
  destruct r as [|word fields]; [done|]. intros _.
  exists word. split; [done|]. apply row_body_cons.
Qed.

Lemma row_decision_witness :
  short_card ≠ []
  ∧ ∃ word,
      key short_card = Some word
      ∧ row_body short_card initial
        = if bool_decide (word ∈ observed_set initial)
          then (Normal (), initial)
          else (Normal (),
                State ({[word]} ∪ observed_set initial)
                  (written initial ++ [short_card]) (calls initial)).
Proof.
  split; [discriminate|]. apply (row_decision short_card initial).
  discriminate.
Defined.

(** C4, as the specification has it, fails: the loop checks no field
    count. From the empty observed set, the record with three fields of
    [mixed_blob] is written between the two records with four fields, so
    the rows written are not the well-formed records only. *)
Lemma malformed_record_written :
  for_each row_body mixed_blob initial
  = (Normal (), State (keys mixed_blob) mixed_blob 0)
  ∧ short_card ∈ written (for_each row_body mixed_blob initial).2
  ∧ length short_card = 3%nat
  ∧ written (for_each row_body mixed_blob initial).2
    ≠ filter (λ r, length r = 4%nat) mixed_blob.
Proof.
  assert (for_each row_body mixed_blob initial
          = (Normal (), State (keys mixed_blob) mixed_blob 0)) as Hrun.
  { unfold initial. rewrite rows_loop by (repeat constructor; discriminate).
    by rewrite filter_unseen_empty, (right_id_L ∅ (∪)). }
  rewrite Hrun. cbn [snd written]. split; [done|].
  split; [set_solver|]. split; [done|]. discriminate.
Qed.

(** C4, amended. For every answer that holds one record with three fields
    amid records with four fields, the loop over its rows raises nothing,
    and it writes, after what was written before, the first occurrences of
    all these rows that pass the observed set: the record with three fields
    is kept with its fields as they are whenever its first field is not in
    the observed set and not the first field of a row before it. *)
Theorem malformed_record_kept (before after : list row) (bad : row)
    (st : state) :
  Forall (λ r, length r = 4%nat) before →
  length bad = 3%nat →
  Forall (λ r, length r = 4%nat) after →
  ∃ st',
    for_each row_body (before ++ bad :: after) st = (Normal (), st')
    ∧ written st'
      = written st
        ++ filter (unseen (observed_set st))
             (first_occurrences (before ++ bad :: after))
    ∧ (unseen (observed_set st) bad → unseen (keys before) bad →
       bad ∈ written st').
Proof.
  intros Hbefore Hbad Hafter.
  assert (with_fields before) as Hfields_before.
  { eapply Forall_impl; [exact Hbefore|]. by intros [|? ?]. }
  assert (with_fields (before ++ bad :: after)) as Hfields.
  { apply Forall_app. split; [done|]. constructor; [by destruct bad|].
    eapply Forall_impl; [exact Hafter|]. by intros [|? ?]. }
  destruct st as [observed out k]. rewrite rows_loop by done.
  eexists. split; [done|]. cbn [written observed_set]. split; [done|].
  intros Hnew Hfirst. apply elem_of_app. right.
  apply list_elem_of_filter. split; [done|].
  rewrite first_occurrences_app by done. apply elem_of_app. right.
  apply list_elem_of_filter. split; [done|]. cbn [first_occurrences]. left.
Qed.

Lemma malformed_record_kept_witness :
  Forall (λ r, length r = 4%nat) [card "A"]
  ∧ length short_card = 3%nat
  ∧ Forall (λ r, length r = 4%nat) [card "C"]
  ∧ ∃ st',
      for_each row_body ([card "A"] ++ short_card :: [card "C"]) initial
      = (Normal (), st')
      ∧ written st'
        = written initial
          ++ filter (unseen (observed_set initial))
               (first_occurrences ([card "A"] ++ short_card :: [card "C"]))
      ∧ (unseen (observed_set initial) short_card →
         unseen (keys [card "A"]) short_card →
         short_card ∈ written st').
Proof.
  split; [by repeat constructor|]. split; [reflexivity|].
  split; [by repeat constructor|].
  apply (malformed_record_kept [card "A"] [card "C"] short_card initial);
    [by repeat constructor | reflexivity | by repeat constructor].
Defined.

(** A row without fields, which [csv.reader] yields for an empty line, is
    another matter: [row[0]] raises and the run stops there. *)
Example empty_row_raises :
  (for_each row_body [card "A"; []; card "C"] initial).1 = Raise IndexError.
Proof. vm_compute. reflexivity. Qed.

(** * Further properties of the batcher *)

Lemma len_join_cons (line : str) (lines : list str) :
  len (join (line :: lines)) = len line + len (join lines).
Proof. unfold join. simpl. apply len_app. Qed.

Lemma len_join_nil : len (join []) = 0.
Proof. done. Qed.

(** The batches are the groups of lines that the loop gathers: what is
    returned after [result] is the joins of groups that split the pending
    lines and the lines left, greedily, the pending lines opening the first
    group. *)
Lemma batch_lines_groups (max_batch_length : Z) (lines : list str) :
  ∀ i result batch_parts current_len batches,
    (batch_lines max_batch_length i lines result batch_parts
       current_len).1 = Some batches →
    current_len = len (join batch_parts) →
    ∃ groups,
      batches = result ++ (join <$> groups)
      ∧ concat groups = batch_parts ++ lines
      ∧ Forall (λ g, g ≠ []) groups
      ∧ greedy max_batch_length groups
      ∧ (batch_parts ≠ [] →
         ∃ g groups', groups = g :: groups' ∧ batch_parts `prefix_of` g).
Proof.
  induction lines as [|line lines' IH]; intros * Hrun Hlen; simpl in Hrun.
  - case_bool_decide as Hparts; simpl in Hrun; simplify_eq.
    + assert (batch_parts ≠ [])
        by (intros ->; unfold len in *; simpl in *; lia).
      exists [batch_parts]. simpl. rewrite !app_nil_r.
      repeat split; [by constructor|constructor|]. eauto.
    + assert (batch_parts = []) as ->
        by (apply len_zero; pose proof (len_nonneg batch_parts); lia).
      exists []. simpl. rewrite app_nil_r.
      repeat split; [constructor|constructor|done].
  - case_bool_decide as Hlong; [done|].
    case_bool_decide as Hflush.
    + apply IH in Hrun as (groups & -> & Hcat & Hne & Hgreedy & Hfirst);
        [|by rewrite join_snoc, len_app].
      destruct Hfirst as (g & groups' & -> & [g' ->]); [done|].
      assert (batch_parts ≠ []).
      { intros ->. rewrite len_join_nil in Hlen. lia. }
      exists (batch_parts :: (line :: g') :: groups').
      rewrite <- app_assoc. split; [done|]. split.
      { simpl in *. by rewrite Hcat. }
      split; [by constructor|]. split; [|eauto].
      constructor; [lia|done].
    + apply IH in Hrun as (groups & -> & Hcat & Hne & Hgreedy & Hfirst);
        [|rewrite join_snoc, len_app; lia].
      exists groups. split; [done|]. split.
      { by rewrite Hcat, <- app_assoc. }
      split; [done|]. split; [done|]. intros _.
      destruct Hfirst as (g & groups' & -> & Hprefix);
        [by destruct batch_parts|].
      exists g, groups'. split; [done|].
      etrans; [|exact Hprefix]. by apply prefix_app_r.
Qed.

(** X1. When [split_text_into_batches] returns batches, each batch is one
    or more whole lines of the text joined, and the groups of lines, put
    end to end, are the lines of the text: no line is cut, dropped or taken
    twice. *)
Theorem split_whole_lines (text : str) (max_batch_length : Z)
    (batches : list str) :
  (split_text_into_batches text max_batch_length).1 = Some batches →
  ∃ groups : list (list str),
    concat groups = splitlines text
    ∧ batches = join <$> groups
    ∧ Forall (λ g, g ≠ []) groups.
Proof.
  intros Hrun.
  apply batch_lines_groups in Hrun as (groups & -> & Hcat & Hne & _); [|done].
  by exists groups.
Qed.

Lemma split_whole_lines_witness :
  (split_text_into_batches hello_text 12).1 = Some hello_batches
  ∧ ∃ groups : list (list str),
      concat groups = splitlines hello_text
      ∧ hello_batches = join <$> groups
      ∧ Forall (λ g, g ≠ []) groups.
Proof.
  split; [vm_compute; reflexivity|].
  apply (split_whole_lines hello_text 12 hello_batches).
  vm_compute; reflexivity.
Defined.

Lemma greedy_adjacent (max_batch_length : Z) (groups : list (list str)) :
  greedy max_batch_length groups →
  ∀ (i : nat) (g g' : list str),
    groups !! i = Some g → groups !! S i = Some g' →
    len (join g) + len (join g') > max_batch_length.
Proof.
  induction 1 as [|g|g line g' groups Hlong _ IH]; intros i g1 g2 H1 H2.
  - done.
  - by destruct i.
  - destruct i as [|i]; [|by eapply IH].
    simpl in *. simplify_eq. rewrite len_join_cons.
    pose proof (len_nonneg (join g')). lia.
Qed.

(** X2. The splitting is greedy: a batch is closed only when the next line
    does not fit in it, so a batch together with the first line of the
    batch after it is longer than the maximum, and no two batches that
    follow each other could have been one. *)
Theorem split_greedy (text : str) (max_batch_length : Z)
    (batches : list str) :
  (split_text_into_batches text max_batch_length).1 = Some batches →
  (∃ groups : list (list str),
     concat groups = splitlines text
     ∧ batches = join <$> groups
     ∧ greedy max_batch_length groups)
  ∧ (∀ (i : nat) (batch batch' : str),
       batches !! i = Some batch → batches !! S i = Some batch' →
       len batch + len batch' > max_batch_length).
Proof.
  intros Hrun.
  apply batch_lines_groups in Hrun as (groups & -> & Hcat & _ & Hgreedy & _);
    [|done].
  split; [by exists groups|]. simpl. intros i batch batch'.
  rewrite !list_lookup_fmap.
  destruct (groups !! i) as [g|] eqn:Hg; [|done].
  destruct (groups !! S i) as [g'|] eqn:Hg'; [|done].
  simpl. intros ? ?; simplify_eq. by eapply greedy_adjacent.
Qed.

Lemma split_greedy_witness :
  (split_text_into_batches hello_text 12).1 = Some hello_batches
  ∧ (∃ groups : list (list str),
       concat groups = splitlines hello_text
       ∧ hello_batches = join <$> groups
       ∧ greedy 12 groups)
  ∧ (∀ (i : nat) (batch batch' : str),
       hello_batches !! i = Some batch →
       hello_batches !! S i = Some batch' →
       len batch + len batch' > 12).
Proof.
  split; [vm_compute; reflexivity|].
  apply (split_greedy hello_text 12 hello_batches).
  vm_compute; reflexivity.
Defined.

(** When every line fits, the loop reaches its end. *)
Lemma batch_lines_succeeds (max_batch_length : Z) (lines : list str) :
  Forall (λ line, len line ≤ max_batch_length) lines →
  ∀ i result batch_parts current_len,
    ∃ batches,
      batch_lines max_batch_length i lines result batch_parts current_len
      = (Some batches, None).
Proof.
  induction 1 as [|line lines' Hline _ IH]; intros; simpl.
  - case_bool_decide; eauto.
  - rewrite bool_decide_eq_false_2 by lia. case_bool_decide; apply IH.
Qed.

(** X3. [split_text_into_batches] returns batches exactly when no line of
    the text is longer than the maximum; the length of the whole text does
    not matter. *)
Theorem split_succeeds_iff (text : str) (max_batch_length : Z) :
  (∃ batches,
     split_text_into_batches text max_batch_length = (Some batches, None))
  ↔ Forall (λ line, len line ≤ max_batch_length) (splitlines text).
Proof.
  split.
  - intros [batches Hrun].
    destruct (decide (Forall (λ line, len line ≤ max_batch_length)
                        (splitlines text))) as [|Hsome]; [done|].
    apply not_Forall_Exists in Hsome; [|apply _].
    apply Exists_exists in Hsome as (line & Hin & Hlong).
    destruct (first_too_long max_batch_length (splitlines text))
      as (before & first & after & Hlines & Hfit & Hfirst).
    { exists line. split; [done|]. simpl in Hlong. lia. }
    unfold split_text_into_batches in Hrun.
    rewrite Hlines, batch_lines_too_long in Hrun by done. done.
  - intros Hfit. by apply batch_lines_succeeds.
Qed.

(** While the pending lines and the lines left fit together, nothing is
    flushed. *)
Lemma batch_lines_fits (max_batch_length : Z) (lines : list str) :
  ∀ i result batch_parts current_len,
    current_len = len (join batch_parts) →
    current_len + len (join lines) ≤ max_batch_length →
    batch_lines max_batch_length i lines result batch_parts current_len
    = if decide (batch_parts ++ lines = [])
      then (Some result, None)
      else (Some (result ++ [join (batch_parts ++ lines)]), None).
Proof.
  induction lines as [|line lines' IH]; intros * Hlen Hfit; simpl.
  - rewrite app_nil_r.
    destruct (decide (batch_parts = [])) as [->|Hparts]; [done|].
    rewrite bool_decide_eq_true_2; [done|].
    destruct batch_parts; [done|]. unfold len. simpl. lia.
  - rewrite len_join_cons in Hfit.
    pose proof (len_nonneg (join lines')).
    pose proof (len_nonneg (join batch_parts)).
    rewrite bool_decide_eq_false_2 by lia.
    rewrite bool_decide_eq_false_2 by lia.
    rewrite IH; [|rewrite join_snoc, len_app; lia|lia].
    rewrite <- app_assoc. simpl.
    rewrite !decide_False by (by destruct batch_parts). done.
Qed.

(** X4. A text that is not empty and not longer than the maximum comes
    back as one batch, the text itself. *)
Theorem split_short_text (text : str) (max_batch_length : Z) :
  text ≠ [] →
  len text ≤ max_batch_length →
  split_text_into_batches text max_batch_length = (Some [text], None).
Proof.
  intros Htext Hfit. unfold split_text_into_batches.
  rewrite batch_lines_fits; [|done|by rewrite splitlines_join].
  simpl. rewrite splitlines_join.
  rewrite decide_False; [done|].
  intros Hnone. apply Htext.
  by rewrite <- (splitlines_join text), Hnone.
Qed.

Lemma split_short_text_witness :
  lit "hello" ++ [LF] ≠ []
  ∧ len (lit "hello" ++ [LF]) ≤ 12
  ∧ split_text_into_batches (lit "hello" ++ [LF]) 12
    = (Some [lit "hello" ++ [LF]], None).
Proof.
  split; [discriminate|]. split; [vm_compute; discriminate|].
  apply (split_short_text (lit "hello" ++ [LF]) 12);
    [discriminate | vm_compute; discriminate].
Defined.

(** A line of [splitlines] that is not the last one ends with its
    terminator. *)
Lemma splitlines_from_ends (s cur : str) :
  ∀ (i : nat) (line : str),
    splitlines_from cur s !! i = Some line →
    is_Some (splitlines_from cur s !! S i) →
    ends_line line.
Proof.
  revert cur.
  induction s as [s IH] using (induction_ltof1 _ (@length N)).
  unfold ltof in IH. intros cur i line.
  destruct s as [|c s']; simpl.
  - destruct cur; simpl; [done|]. by intros _ [? ?].
  - destruct (is_linebreak c) eqn:Hc; [|apply IH; simpl; lia].
    destruct s' as [|c' s'']; [by intros _ [? ?]|].
    destruct (bool_decide (c = CR) && bool_decide (c' = LF)) eqn:Hcrlf.
    + apply andb_prop in Hcrlf as [_ ->%bool_decide_eq_true].
      destruct i as [|i]; simpl.
      * intros [= <-] _. exists LF.
        by rewrite (last_app_cons cur [LF] c).
      * apply IH. simpl. lia.
    + destruct i as [|i]; simpl.
      * intros [= <-] _. exists c. by rewrite last_snoc.
      * apply (IH (c' :: s'') ltac:(simpl; lia) [] i line).
Qed.

(** The last line of a group that another group follows is a line of the
    whole that another line follows. *)
Lemma group_followed {A : Type} (groups : list (list A)) (i : nat)
    (g g' : list A) :
  groups !! i = Some g → groups !! S i = Some g' →
  g ≠ [] → g' ≠ [] →
  ∃ (j : nat) (x : A),
    last g = Some x
    ∧ concat groups !! j = Some x
    ∧ is_Some (concat groups !! S j).
Proof.
  intros Hg Hg' Hne Hne'.
  apply list_elem_of_split_length in Hg as (before & after & -> & ->).
  rewrite lookup_app_r, Nat.sub_succ_l, Nat.sub_diag in Hg' by lia.
  destruct after as [|g1 after]; simplify_eq/=.
  destruct (last g) as [x|] eqn:Hlast; [|by apply last_None in Hlast].
  apply last_Some in Hlast as [g0 ->].
  destruct g' as [|x' g'0]; [done|].
  exists (length (concat before ++ g0)), x. split; [done|].
  rewrite concat_app. simpl.
  rewrite <- (app_assoc g0), (app_assoc (concat before)). simpl.
  split; [by apply list_lookup_middle|].
  exists x'.
  rewrite (lookup_app_r _ _ (S _)) by lia.
  by rewrite Nat.sub_succ_l, Nat.sub_diag by lia.
Qed.

(** X5. Batches end where lines end: every batch that another batch
    follows ends with a line boundary of the text. Only the last batch can
    end without one, when the text does. *)
Theorem split_breaks_at_line_ends (text : str) (max_batch_length : Z)
    (batches : list str) :
  (split_text_into_batches text max_batch_length).1 = Some batches →
  ∀ (i : nat) (batch : str),
    batches !! i = Some batch →
    is_Some (batches !! S i) →
    ends_line batch.
Proof.
  intros Hrun i batch.
  apply batch_lines_groups in Hrun as (groups & -> & Hcat & Hne & _); [|done].
  simpl in *. rewrite !list_lookup_fmap.
  destruct (groups !! i) as [g|] eqn:Hg; [|done].
  destruct (groups !! S i) as [g'|] eqn:Hg'; [|by intros _ [? ?]].
  simpl. intros [= <-] _.
  destruct (group_followed groups i g g') as (j & line & Hlast & Hj & HSj);
    [done|done|by eapply Forall_lookup_1 in Hne
    |by eapply (Forall_lookup_1 _ _ (S i)) in Hne|].
  rewrite Hcat in Hj, HSj.
  destruct (splitlines_from_ends text [] j line Hj HSj) as (c & Hc & Hbreak).
  apply last_Some in Hlast as [g0 ->].
  exists c. split; [|done].
  rewrite join_snoc, last_app. by rewrite Hc.
Qed.

Lemma split_breaks_at_line_ends_witness :
  (split_text_into_batches hello_text 12).1 = Some hello_batches
  ∧ ∀ (i : nat) (batch : str),
      hello_batches !! i = Some batch →
      is_Some (hello_batches !! S i) →
      ends_line batch.
Proof.
  split; [vm_compute; reflexivity|].
  apply (split_breaks_at_line_ends hello_text 12 hello_batches).
  vm_compute; reflexivity.
Defined.

(** * Further properties of the aggregation loop *)

(** What every turn of a loop keeps, the loop keeps, however it ends. *)
Lemma for_each_keeps {A : Type} (P : state → Prop) (body : A → M ())
    (l : list A) :
  (∀ x st, P st → P (body x st).2) →
  ∀ st, P st → P (for_each body l st).2.
Proof.
  intros Hbody. induction l as [|x l IH]; intros st Hst; [done|].
  rewrite for_each_cons. specialize (Hbody x st Hst).
  destruct (body x st) as [[[]|e|code] st']; simpl in *; auto.
Qed.

Lemma row_body_consistent (r : row) (st : state) :
  consistent st → consistent (row_body r st).2.
Proof.
  intros (Hobserved & Hkeys & Hfields).
  destruct r as [|word fields]; [done|]. rewrite row_body_cons.
  case_bool_decide as Hseen; [done|]. cbn [snd].
  unfold consistent. cbn [observed_set written].
  split; [|split].
  - rewrite keys_app, keys_cons, Hobserved. set_solver.
  - rewrite fmap_app. apply NoDup_app. split; [done|]. split.
    + intros k Hin ->%list_elem_of_singleton. apply Hseen.
      rewrite Hobserved. apply elem_of_keys.
      apply list_elem_of_fmap in Hin as (r' & Hkey & Hin). eauto.
    + apply NoDup_singleton.
  - apply Forall_app. split; [done|]. by repeat constructor.
Qed.

Lemma prompt_body_consistent (service : nat → prompt → completion)
    (p : prompt) (st : state) :
  consistent st → consistent (prompt_body service p st).2.
Proof.
  intros Hst. destruct (service (calls st) p) as [rows|] eqn:Hanswer.
  - rewrite (prompt_body_answer _ _ rows) by done.
    apply for_each_keeps; [apply row_body_consistent|done].
  - by rewrite prompt_body_refused.
Qed.

Lemma batches_loop_consistent (service : nat → prompt → completion)
    (batches : list str) :
  consistent (for_each (batch_body service) batches initial).2.
Proof.
  apply for_each_keeps.
  - intros batch st Hst. unfold batch_body.
    apply for_each_keeps; [apply prompt_body_consistent|done].
  - unfold consistent, initial, with_fields. simpl.
    split; [done|]. split; constructor.
Qed.

(** X6. However a run ends (all batches done, a request refused, a row
    without fields), the rows written so far have a first field each, no
    two rows written have the same first field, and the observed set is
    the set of the first fields of the rows written. *)
Theorem aggregate_consistent (service : nat → prompt → completion)
    (batches : list str) :
  consistent (aggregate service batches initial).2.
Proof.
  pose proof (batches_loop_consistent service batches) as Hloop.
  unfold aggregate, mbind, M_bind.
  by destruct (for_each _ batches initial) as [[[]|e|code] st'].
Qed.

(** X7. An authentication error ends the run with exit code 1 at once:
    no request is sent after the refused one, and the rows written are the
    first occurrences of the rows of the answers before it. *)
Theorem aggregate_refused (service : nat → prompt → completion)
    (batches : list str) (before after : list prompt) (p : prompt) :
  requests batches = before ++ p :: after →
  answered service 0 before →
  with_fields (answers service 0 before ≫= rows_of) →
  service (length before) p = AuthenticationError →
  aggregate service batches initial
  = (Return 1,
     State (keys (answers service 0 before ≫= rows_of))
       (first_occurrences (answers service 0 before ≫= rows_of))
       (S (length before))).
Proof.
  intros Hrequests Hanswered Hfields Hrefused.
  unfold aggregate, initial, mbind, M_bind.
  rewrite batches_loop, Hrequests, for_each_app, prompts_loop by done.
  rewrite for_each_cons, prompt_body_refused by done.
  cbn [observed_set written calls].
  by rewrite filter_unseen_empty, (right_id_L ∅ (∪)).
Qed.

Lemma aggregate_refused_witness :
  requests two_batches
  = take 5 (requests two_batches)
    ++ Prompt Nouns (lit "second" ++ [LF]) :: drop 6 (requests two_batches)
  ∧ answered refused_at_5 0 (take 5 (requests two_batches))
  ∧ with_fields (answers refused_at_5 0 (take 5 (requests two_batches))
                 ≫= rows_of)
  ∧ refused_at_5 (length (take 5 (requests two_batches)))
      (Prompt Nouns (lit "second" ++ [LF])) = AuthenticationError
  ∧ aggregate refused_at_5 two_batches initial
    = (Return 1,
       State
         (keys (answers refused_at_5 0 (take 5 (requests two_batches))
                ≫= rows_of))
         (first_occurrences
            (answers refused_at_5 0 (take 5 (requests two_batches))
             ≫= rows_of))
         (S (length (take 5 (requests two_batches))))).
Proof.
  split; [reflexivity|]. split; [run_answered|].
  split; [run_with_fields|]. split; [reflexivity|].
  apply (aggregate_refused refused_at_5 two_batches
           (take 5 (requests two_batches))
           (drop 6 (requests two_batches))
           (Prompt Nouns (lit "second" ++ [LF])));
    [reflexivity | run_answered | run_with_fields | reflexivity].
Defined.

(** The run of the witness, evaluated: six requests, three rows. *)
Example refused_at_5_run :
  (let '(ending, st) := aggregate refused_at_5 two_batches initial in
   (ending, written st, calls st))
  = (Return 1, [card "A"; card "B"; card "C"], 6%nat).
Proof. vm_compute. reflexivity. Qed.

(** X8. A row without fields ends the loop over the rows of an answer with
    an [IndexError]: the rows before it are treated as ever, and the rows
    after it are not looked at. *)
Theorem empty_row_stops (before after : list row) (st : state) :
  with_fields before →
  for_each row_body (before ++ [] :: after) st
  = (Raise IndexError,
     State (keys before ∪ observed_set st)
       (written st
        ++ filter (unseen (observed_set st)) (first_occurrences before))
       (calls st)).
Proof.
  intros Hfields. destruct st as [observed out k].
  by rewrite for_each_app, rows_loop.
Qed.

Lemma empty_row_stops_witness :
  with_fields [card "A"]
  ∧ for_each row_body ([card "A"] ++ [] :: [card "C"]) initial
    = (Raise IndexError,
       State (keys [card "A"] ∪ observed_set initial)
         (written initial
          ++ filter (unseen (observed_set initial))
               (first_occurrences [card "A"]))
         (calls initial)).
Proof.
  split; [run_with_fields|].
  apply (empty_row_stops [card "A"] [card "C"] initial). run_with_fields.
Defined.

(** A loop over rows raises exactly when one of the rows has no field. *)
Lemma rows_loop_raises (rows : list row) :
  ¬ with_fields rows →
  ∀ st, (for_each row_body rows st).1 = Raise IndexError.
Proof.
  unfold with_fields.
  induction rows as [|r rows IH]; intros Hsome st; [by destruct Hsome|].
  destruct r as [|word fields]; [done|].
  rewrite for_each_cons, row_body_cons.
  assert (¬ Forall (λ r, r ≠ []) rows) as Hrows.
  { intros Hrows. apply Hsome. by constructor. }
  case_bool_decide; by apply IH.
Qed.

(** The three ways in which the loop over prompts ends. *)
Lemma prompts_loop_endings (service : nat → prompt → completion)
    (ps : list prompt) :
  ∀ st,
    ((for_each (prompt_body service) ps st).1 = Normal ()
     ∧ answered service (calls st) ps
     ∧ with_fields (answers service (calls st) ps ≫= rows_of))
    ∨ ((for_each (prompt_body service) ps st).1 = Return 1
       ∧ ¬ answered service (calls st) ps)
    ∨ ((for_each (prompt_body service) ps st).1 = Raise IndexError
       ∧ ¬ with_fields (answers service (calls st) ps ≫= rows_of)).
Proof.
  unfold answered, with_fields.
  induction ps as [|p ps IH]; intros [observed out k].
  - left. by repeat split; constructor.
  - cbn [answers calls]. rewrite bind_cons, for_each_cons.
    destruct (service k p) as [rows|] eqn:Hanswer.
    + rewrite (prompt_body_answer _ _ rows) by done.
      cbn [rows_of observed_set written calls].
      destruct (decide (with_fields rows)) as [Hrows|Hrows].
      * rewrite rows_loop by done.
        destruct (IH (State (keys rows ∪ observed)
                        (out ++ filter (unseen observed)
                                  (first_occurrences rows)) (S k)))
          as [(-> & Hps & Hrest)|[(-> & Hps)|(-> & Hrest)]];
          cbn [calls] in *.
        -- left. split; [done|]. split; [by constructor|].
           by apply Forall_app.
        -- right. left. split; [done|].
           by intros [_ ?]%Forall_cons.
        -- right. right. split; [done|].
           by intros [_ ?]%Forall_app.
      * right. right.
        pose proof (rows_loop_raises rows Hrows (State observed out (S k)))
          as Hraise.
        destruct (for_each row_body rows _) as [sig st']. simpl in Hraise.
        subst sig. split; [done|]. by intros [? _]%Forall_app.
    + rewrite prompt_body_refused by done.
      right. left. split; [done|]. by intros [? _]%Forall_cons.
Qed.

(** X9. In a run whose requests are each answered or refused, the loop
    returns 0 exactly when every request is answered and every row read has
    at least one field, and it returns 1 only when some request was
    refused. *)
Theorem aggregate_returns_0_iff (service : nat → prompt → completion)
    (batches : list str) :
  ((aggregate service batches initial).1 = Return 0
   ↔ answered service 0 (requests batches)
     ∧ with_fields (rows_read service batches))
  ∧ ((aggregate service batches initial).1 = Return 1 →
     ¬ answered service 0 (requests batches)).
Proof.
  unfold aggregate, mbind, M_bind, rows_read. rewrite batches_loop.
  destruct (prompts_loop_endings service (requests batches) initial)
    as [(Hend & Hanswered & Hfields)|[(Hend & Hrefused)|(Hend & Hempty)]];
    destruct (for_each _ (requests batches) initial) as [sig st'];
    simpl in *; subst sig; simpl.
  - by split.
  - split; [|done]. split; [done|]. by intros [? _].
  - split; [|done]. split; [done|]. by intros [_ ?].
Qed.

Lemma aggregate_returns_0_iff_witness :
  (aggregate refused_at_5 two_batches initial).1 = Return 1
  ∧ ¬ answered refused_at_5 0 (requests two_batches).
Proof.
  split; [vm_compute; reflexivity|].
  apply (proj2 (aggregate_returns_0_iff refused_at_5 two_batches)).
  vm_compute; reflexivity.
Defined.

Lemma length_requests (batches : list str) :
  length (requests batches) = (4 * length batches)%nat.
Proof.
  unfold requests. induction batches as [|batch batches IH]; [done|].
  rewrite bind_cons, length_app, IH. simpl. lia.
Qed.

Lemma prompt_body_calls (service : nat → prompt → completion) (p : prompt)
    (st : state) :
  calls (prompt_body service p st).2 = S (calls st).
Proof.
  destruct (service (calls st) p) as [rows|] eqn:Hanswer.
  - rewrite (prompt_body_answer _ _ rows) by done.
    apply (for_each_keeps (λ st', calls st' = S (calls st))); [|done].
    intros [|word fields] st' Hst'; [done|]. rewrite row_body_cons.
    by case_bool_decide.
  - by rewrite prompt_body_refused.
Qed.

Lemma prompts_loop_calls (service : nat → prompt → completion)
    (ps : list prompt) :
  ∀ st,
    (calls (for_each (prompt_body service) ps st).2
     ≤ calls st + length ps)%nat.
Proof.
  induction ps as [|p ps IH]; intros st; [simpl; lia|].
  rewrite for_each_cons. pose proof (prompt_body_calls service p st) as Hp.
  destruct (prompt_body service p st) as [[[]|e|code] st']; simpl in *;
    [|lia..].
  specialize (IH st'). lia.
Qed.

(** X10. A run sends at most four requests for each batch, and a run that
    returns 0 has sent exactly four for each batch. *)
Theorem aggregate_requests (service : nat → prompt → completion)
    (batches : list str) :
  (calls (aggregate service batches initial).2 ≤ 4 * length batches)%nat
  ∧ ((aggregate service batches initial).1 = Return 0 →
     calls (aggregate service batches initial).2
     = (4 * length batches)%nat).
Proof.
  split.
  - pose proof (prompts_loop_calls service (requests batches) initial)
      as Hcalls.
    rewrite length_requests in Hcalls.
    unfold aggregate, mbind, M_bind. rewrite batches_loop.
    by destruct (for_each _ (requests batches) initial) as [[[]|e|code] st'].
  - intros Hend.
    assert (answered service 0 (requests batches)
            ∧ with_fields (rows_read service batches)) as [? ?].
    { unfold aggregate, mbind, M_bind, rows_read in *.
      rewrite batches_loop in Hend.
      destruct (prompts_loop_endings service (requests batches) initial)
        as [(_ & ? & ?)|[(Hloop & _)|(Hloop & _)]]; [done|..];
        destruct (for_each _ (requests batches) initial) as [sig st'];
        simpl in *; by subst sig. }
    rewrite aggregate_first_occurrences by done.
    apply length_requests.
Qed.

Lemma aggregate_requests_witness :
  (aggregate ab_then_bc two_batches initial).1 = Return 0
  ∧ calls (aggregate ab_then_bc two_batches initial).2 = 8%nat.
Proof.
  split; [vm_compute; reflexivity|].
  apply (proj2 (aggregate_requests ab_then_bc two_batches)).
  vm_compute; reflexivity.
Defined.

(** * [main] as a whole *)

(** X11. The [assert batches is not None] of [main] never fails: when
    [split_text_into_batches] gives no error it gives batches. *)
Theorem main_assert_holds (fs : files) (service : nat → prompt → completion)
    (a : arguments) :
  ending_of (main fs service a) ≠ Fault AssertionError.
Proof.
  unfold main.
  destruct (text a) as [given|], (text_path a) as [path|]; try done.
  - destruct (negb (path_exists fs _)); [done|].
    destruct (negb (path_is_file fs _)); [done|].
    destruct (read_text fs (openai_key_path a)); [|done].
    destruct (batch_lines_cases 500 (splitlines given) 0 [] [] 0)
      as [[batches Hsplit]|[error Hsplit]];
      unfold split_text_into_batches; rewrite Hsplit; [|done].
    by destruct (for_each _ batches initial) as [[[]|e|code] st'].
  - destruct (read_text fs path) as [t|]; [|done].
    destruct (negb (path_exists fs _)); [done|].
    destruct (negb (path_is_file fs _)); [done|].
    destruct (read_text fs (openai_key_path a)); [|done].
    destruct (batch_lines_cases 500 (splitlines t) 0 [] [] 0)
      as [[batches Hsplit]|[error Hsplit]];
      unfold split_text_into_batches; rewrite Hsplit; [|done].
    by destruct (for_each _ batches initial) as [[[]|e|code] st'].
Qed.

(** [main] from the point where the text is known. *)
Lemma main_input_text (fs : files) (service : nat → prompt → completion)
    (a : arguments) (t : str) :
  input_text fs a = Some t →
  main fs service a
  = if negb (path_exists fs (openai_key_path a)) then Outcome (Exit 1) [] 0
    else if negb (path_is_file fs (openai_key_path a)) then
      Outcome (Exit 1) [] 0
    else
      match read_text fs (openai_key_path a) with
      | None => Outcome (Exit 1) [] 0
      | Some openai_key =>
          match split_text_into_batches t 500 with
          | (_, Some error) => Outcome (Exit 1) [] 0
          | (None, None) => Outcome (Fault AssertionError) [] 0
          | (Some batches, None) =>
              let '(sig, st) :=
                for_each (batch_body service) batches initial in
              Outcome
                match sig with
                | Normal _ => Exit 0
                | Return code => Exit code
                | Raise e => Fault (Uncaught e)
                end
                (header a :: written st) (calls st)
          end
      end.
Proof.
  unfold input_text, main.
  destruct (text a) as [given|], (text_path a) as [path|]; try done.
  - by intros [= ->].
  - by intros ->.
Qed.

(** [main] without a text to work on writes nothing and asks nothing. *)
Lemma main_no_input_text (fs : files)
    (service : nat → prompt → completion) (a : arguments) :
  input_text fs a = None →
  stdout_rows (main fs service a) = []
  ∧ requests_sent (main fs service a) = 0%nat
  ∧ ending_of (main fs service a) ≠ Exit 0.
Proof.
  unfold input_text, main.
  destruct (text a) as [given|], (text_path a) as [path|]; try done.
  by intros ->.
Qed.

(** X12. [main] checks first: whatever the arguments, the files and the
    answers, either nothing is written and no request is sent, or the
    arguments gave one text, the key file was read, the text was split
    into batches, the header row was written first, the rows after it have
    pairwise distinct first fields, and at most four requests for each
    batch were sent. The header row is the two language names and then
    "Phrase in " followed by each of them. *)
Theorem main_checks_first (fs : files) (service : nat → prompt → completion)
    (a : arguments) :
  (stdout_rows (main fs service a) = []
   ∧ requests_sent (main fs service a) = 0%nat)
  ∨ (∃ (t : str) (batches : list str) (rows : list row),
       input_text fs a = Some t
       ∧ key_readable fs a
       ∧ split_text_into_batches t 500 = (Some batches, None)
       ∧ stdout_rows (main fs service a)
         = [source_language a; target_language a;
            lit "Phrase in " ++ source_language a;
            lit "Phrase in " ++ target_language a] :: rows
       ∧ NoDup (key <$> rows)
       ∧ (requests_sent (main fs service a) ≤ 4 * length batches)%nat).
Proof.
  destruct (input_text fs a) as [t|] eqn:Htext;
    [|left; by destruct (main_no_input_text fs service a) as (? & ? & _)].
  rewrite (main_input_text fs service a t) by done. unfold key_readable.
  destruct (path_exists fs _); [|by left]. simpl.
  destruct (path_is_file fs _); [|by left]. simpl.
  destruct (read_text fs (openai_key_path a)); [|by left].
  destruct (split_text_into_batches t 500) as [[batches|] [error|]] eqn:Hsplit;
    try by left.
  right.
  pose proof (batches_loop_consistent service batches) as (_ & Hkeys & _).
  pose proof (prompts_loop_calls service (requests batches) initial)
    as Hcalls.
  rewrite <- batches_loop, length_requests in Hcalls.
  destruct (for_each _ batches initial) as [sig st]. simpl in *.
  exists t, batches, (written st). by repeat split; eauto.
Qed.


(** X14. What a complete run writes: when all the checks pass and every
    request is answered with rows that have a first field, [main] exits
    with code 0, has written the header row and then the first occurrences
    of the rows read over all batches and categories, and has sent four
    requests for each batch. *)
Theorem main_complete_run (fs : files) (service : nat → prompt → completion)
    (a : arguments) (t : str) (batches : list str) :
  input_text fs a = Some t →
  key_readable fs a →
  split_text_into_batches t 500 = (Some batches, None) →
  answered service 0 (requests batches) →
  with_fields (rows_read service batches) →
  main fs service a
  = Outcome (Exit 0)
      ([source_language a; target_language a;
        lit "Phrase in " ++ source_language a;
        lit "Phrase in " ++ target_language a]
       :: first_occurrences (rows_read service batches))
      (4 * length batches).
Proof.
  intros Htext (Hexists & Hfile & [openai_key Hkey]) Hsplit Hanswered Hfields.
  rewrite (main_input_text fs service a t) by done.
  rewrite Hexists, Hfile, Hkey, Hsplit. cbn [negb]. unfold initial.
  rewrite batches_loop, prompts_loop by done.
  fold (rows_read service batches).
  by rewrite filter_unseen_empty, length_requests.
Qed.

Lemma main_complete_run_witness :
  input_text some_files (some_arguments None (Some (lit "text.txt")))
  = Some hello_text
  ∧ key_readable some_files (some_arguments None (Some (lit "text.txt")))
  ∧ split_text_into_batches hello_text 500 = (Some [hello_text], None)
  ∧ answered two_words 0 (requests [hello_text])
  ∧ with_fields (rows_read two_words [hello_text])
  ∧ main some_files two_words (some_arguments None (Some (lit "text.txt")))
    = Outcome (Exit 0)
        ([lit "Russian"; lit "English"; lit "Phrase in " ++ lit "Russian";
          lit "Phrase in " ++ lit "English"]
         :: first_occurrences (rows_read two_words [hello_text]))
        (4 * length [hello_text]).
Proof.
  assert (key_readable some_files
            (some_arguments None (Some (lit "text.txt")))) as Hkey.
  { split; [reflexivity|]. split; [reflexivity|]. by eexists. }
  split; [reflexivity|]. split; [exact Hkey|].
  split; [vm_compute; reflexivity|].
  split; [run_answered|]. split; [run_with_fields|].
  apply (main_complete_run some_files two_words
           (some_arguments None (Some (lit "text.txt")))
           hello_text [hello_text]);
    [reflexivity | exact Hkey | vm_compute; reflexivity
    | run_answered | run_with_fields].
Defined.

(** The run of the witness, evaluated. *)
Example main_some_files :
  main some_files two_words (some_arguments None (Some (lit "text.txt")))
  = Outcome (Exit 0)
      [[lit "Russian"; lit "English"; lit "Phrase in Russian";
        lit "Phrase in English"]; card "A"; card "B"]
      4.
Proof. vm_compute. reflexivity. Qed.

(** X15. A text with a line longer than 500 characters is refused before
    anything is written or requested: [main] exits with code 1, with no row
    written and no request sent, whatever the key file and the service. *)
Theorem main_line_too_long (fs : files)
    (service : nat → prompt → completion) (a : arguments) (t : str) :
  input_text fs a = Some t →
  (∃ line, line ∈ splitlines t ∧ len line > 500) →
  main fs service a = Outcome (Exit 1) [] 0.
Proof.
  intros Htext (before & line & after & Hlines & Hfit & Hlong)%first_too_long.
  rewrite (main_input_text fs service a t) by done.
  unfold split_text_into_batches.
  rewrite Hlines, batch_lines_too_long by done.
  destruct (negb (path_exists fs _)); [done|].
  destruct (negb (path_is_file fs _)); [done|].
  by destruct (read_text fs (openai_key_path a)).
Qed.

Lemma main_line_too_long_witness :
  input_text some_files (some_arguments (Some overflow_text) None)
  = Some overflow_text
  ∧ (∃ line, line ∈ splitlines overflow_text ∧ len line > 500)
  ∧ main some_files two_words (some_arguments (Some overflow_text) None)
    = Outcome (Exit 1) [] 0.
Proof.
  assert (∃ line, line ∈ splitlines overflow_text ∧ len line > 500)
    as Hlong.
  { exists (replicate 500 120%N ++ [LF]). split; [|vm_compute; reflexivity].
    apply list_elem_of_lookup. exists 2%nat. vm_compute. reflexivity. }
  split; [reflexivity|]. split; [exact Hlong|].
  apply (main_line_too_long some_files two_words
           (some_arguments (Some overflow_text) None) overflow_text);
    [reflexivity | exact Hlong].
Defined.

(** * The loops of [csv_to_anki.main] *)

Lemma len_4 (r : row) :
  len r = 4 →
  ∃ source target example_source example_target,
    r = [source; target; example_source; example_target].
Proof.
  destruct r as [|? [|? [|? [|? [|? ?]]]]]; unfold len; simpl;
    try lia. eauto.
Qed.

Section AnkiFacts.
Variable uid4 : str.
Variable tts_saved : str → str → bool.

(** A row after the header without exactly four fields gives no note. *)
Lemma add_notes_skip (synthesize_audio : option str) (i : Z) (r : row)
    (rows : list row) :
  i = 0 ∨ len r ≠ 4 →
  add_notes uid4 tts_saved synthesize_audio i (r :: rows)
  = add_notes uid4 tts_saved synthesize_audio (i + 1) rows.
Proof.
  intros Hskip. simpl. case_bool_decide; [done|].
  destruct Hskip as [?|Hlen]; [done|].
  by destruct r as [|? [|? [|? [|? [|? ?]]]]].
Qed.

(** A row after the header with four fields gives a note, unless the
    speech service fails. *)
Lemma add_notes_keep (synthesize_audio : option str) (i : Z)
    (source target example_source example_target : str) (rows : list row) :
  i ≠ 0 →
  add_notes uid4 tts_saved synthesize_audio i
    ([source; target; example_source; example_target] :: rows)
  = match synthesize_audio with
    | None =>
        let '(notes, done) :=
          add_notes uid4 tts_saved synthesize_audio (i + 1) rows in
        (Note source None target example_source example_target
           (lit "card" ++ str_of_int i) :: notes, done)
    | Some lang =>
        if tts_saved source lang then
          let '(notes, done) :=
            add_notes uid4 tts_saved synthesize_audio (i + 1) rows in
          (Note source
             (Some (lit "[sound:"
                    ++ (uid4 ++ lit "-" ++ str_of_int i ++ lit ".mp3")
                    ++ lit "]"))
             target example_source example_target
             (lit "card" ++ str_of_int i) :: notes, done)
        else ([], false)
    end.
Proof.
  intros Hi. cbn [add_notes]. by rewrite bool_decide_eq_false_2.
Qed.

(** The notes come from the rows of four fields; the header gives none. *)
Lemma add_notes_fields (synthesize_audio : option str) (rows : list row) :
  ∀ i,
    0 < i →
    (add_notes uid4 tts_saved synthesize_audio i rows).2 = true →
    note_fields <$> (add_notes uid4 tts_saved synthesize_audio i rows).1
    = filter (λ r, len r = 4) rows.
Proof.
  induction rows as [|r rows IH]; intros i Hi; [done|].
  destruct (decide (len r = 4)) as [Hlen|Hlen].
  - rewrite filter_cons_True by done.
    destruct (len_4 r Hlen) as (s & t & es & et & ->).
    rewrite add_notes_keep by lia.
    specialize (IH (i + 1) ltac:(lia)).
    destruct synthesize_audio as [lang|];
      [destruct (tts_saved s lang); [|done]|];
      destruct (add_notes _ _ _ (i + 1) rows) as [notes finished];
      cbn [fst snd] in *; intros ->; rewrite fmap_cons; f_equal;
      by apply IH.
  - rewrite filter_cons_False, add_notes_skip by auto.
    apply IH. lia.
Qed.

Lemma ignored_rows_fields (rows : list row) :
  ∀ i, 0 < i → (ignored_rows i rows).*2 = filter (λ r, len r ≠ 4) rows.
Proof.
  induction rows as [|r rows IH]; intros i Hi; [done|]. simpl.
  rewrite bool_decide_eq_false_2 by lia. rewrite filter_cons.
  case_bool_decide; destruct (decide (len r ≠ 4)); try done;
    simpl; rewrite IH by lia; done.
Qed.

(** X16. The two loops agree: the first row is the header and is neither
    reported nor made a note; of the rows after it, those that the first
    loop reports as ignored are the rows without exactly four fields, in
    order, and when the second loop goes through all rows, the notes it
    adds are the rows with exactly four fields, in order, field by field. *)
Theorem anki_rows_partition (synthesize_audio : option str)
    (first : row) (rows : list row) :
  (ignored_rows 0 (first :: rows)).*2 = filter (λ r, len r ≠ 4) rows
  ∧ ((add_notes uid4 tts_saved synthesize_audio 0 (first :: rows)).2
     = true →
     note_fields
       <$> (add_notes uid4 tts_saved synthesize_audio 0 (first :: rows)).1
     = filter (λ r, len r = 4) rows).
Proof.
  split.
  - simpl. by apply ignored_rows_fields.
  - rewrite add_notes_skip by auto. by apply add_notes_fields.
Qed.

(** Where a note comes from. *)
Lemma add_notes_guid (synthesize_audio : option str) (rows : list row) :
  ∀ i (n : note),
    0 ≤ i →
    n ∈ (add_notes uid4 tts_saved synthesize_audio i rows).1 →
    ∃ j : nat,
      rows !! j = Some (note_fields n)
      ∧ 0 < i + Z.of_nat j
      ∧ note_guid n = lit "card" ++ str_of_int (i + Z.of_nat j)
      ∧ note_tts n
        = (λ _, lit "[sound:" ++ (uid4 ++ lit "-"
                 ++ str_of_int (i + Z.of_nat j) ++ lit ".mp3") ++ lit "]")
          <$> synthesize_audio.
Proof.
  induction rows as [|r rows IH]; intros i n Hi; [by intros ?%elem_of_nil|].
  assert (∀ n,
    n ∈ (add_notes uid4 tts_saved synthesize_audio (i + 1) rows).1 →
    ∃ j : nat, (r :: rows) !! j = Some (note_fields n)
      ∧ 0 < i + Z.of_nat j
      ∧ note_guid n = lit "card" ++ str_of_int (i + Z.of_nat j)
      ∧ note_tts n
        = (λ _, lit "[sound:" ++ (uid4 ++ lit "-"
                 ++ str_of_int (i + Z.of_nat j) ++ lit ".mp3") ++ lit "]")
          <$> synthesize_audio) as Hrest.
  { intros n' Hin. destruct (IH (i + 1) n' ltac:(lia) Hin)
      as (j & Hj & Hpos & Hguid & Htts).
    exists (S j). replace (i + Z.of_nat (S j)) with (i + 1 + Z.of_nat j)
      by lia. done. }
  destruct (decide (i = 0 ∨ len r ≠ 4)) as [Hskip|Hkeep].
  { rewrite add_notes_skip by done. apply Hrest. }
  assert (i ≠ 0 ∧ len r = 4) as [Hi0 Hlen] by (split; lia).
  destruct (len_4 r Hlen) as (s & t & es & et & ->).
  rewrite add_notes_keep by done.
  destruct synthesize_audio as [lang|];
    [destruct (tts_saved s lang); [|by intros ?%elem_of_nil]|];
    destruct (add_notes _ _ _ (i + 1) rows) as [notes finished] eqn:Hnotes;
    cbn [fst snd] in *;
    (intros [->|Hin]%elem_of_cons; [|by apply Hrest]);
    exists 0%nat; rewrite Z.add_0_r; split_and!; done || lia.
Qed.

(** X17. A note names its row: every note added has the four fields of a
    row of the file other than the first, its [guid] is "card" followed by
    the 0-based number of that row, and its [tts] field, when audio is
    synthesized, names the file "<uid4>-<number>.mp3". *)
Theorem anki_note_guid (synthesize_audio : option str) (rows : list row)
    (n : note) :
  n ∈ (add_notes uid4 tts_saved synthesize_audio 0 rows).1 →
  ∃ j : nat,
    (0 < j)%nat
    ∧ rows !! j = Some (note_fields n)
    ∧ note_guid n = lit "card" ++ str_of_int (Z.of_nat j)
    ∧ note_tts n
      = (λ _, lit "[sound:" ++ (uid4 ++ lit "-"
               ++ str_of_int (Z.of_nat j) ++ lit ".mp3") ++ lit "]")
        <$> synthesize_audio.
Proof.
  intros Hin.
  destruct (add_notes_guid synthesize_audio rows 0 n ltac:(lia) Hin)
    as (j & Hj & Hpos & Hguid & Htts).
  exists j. rewrite Z.add_0_l in *. split; [lia|done].
Qed.

Lemma add_notes_guids (synthesize_audio : option str) (rows : list row) :
  ∀ i,
    0 ≤ i →
    NoDup (note_guid
             <$> (add_notes uid4 tts_saved synthesize_audio i rows).1).
Proof.
  induction rows as [|r rows IH]; intros i Hi; [constructor|].
  destruct (decide (i = 0 ∨ len r ≠ 4)) as [Hskip|Hkeep].
  { rewrite add_notes_skip by done. apply IH. lia. }
  assert (i ≠ 0 ∧ len r = 4) as [Hi0 Hlen] by (split; lia).
  destruct (len_4 r Hlen) as (s & t & es & et & ->).
  rewrite add_notes_keep by done.
  pose proof (IH (i + 1) ltac:(lia)) as Hnotes.
  pose proof (add_notes_guid synthesize_audio rows (i + 1)) as Hguid.
  destruct synthesize_audio as [lang|];
    [destruct (tts_saved s lang); [|constructor]|];
    destruct (add_notes _ _ _ (i + 1) rows) as [notes finished];
    cbn [fst snd] in *; rewrite fmap_cons; cbn [note_guid];
    (constructor; [|done]);
    intros (n & Hn & Hin)%list_elem_of_fmap;
    destruct (Hguid n ltac:(lia) Hin) as (j & _ & _ & Hj & _);
    rewrite Hj in Hn; apply app_inv_head, str_of_int_inj in Hn; lia.
Qed.

(** X18. No two notes have the same [guid], whatever the rows of the
    file. *)
Theorem anki_guids_distinct (synthesize_audio : option str)
    (rows : list row) :
  NoDup (note_guid
           <$> (add_notes uid4 tts_saved synthesize_audio 0 rows).1).
Proof. by apply add_notes_guids. Qed.
End AnkiFacts.

Lemma anki_rows_partition_witness :
  (add_notes (lit "u") (λ _ _, true) None 0 some_csv).2 = true
  ∧ note_fields <$> (add_notes (lit "u") (λ _ _, true) None 0 some_csv).1
    = filter (λ r, len r = 4) [card "A"; short_card; card "C"; []].
Proof.
  split; [reflexivity|].
  apply (proj2 (anki_rows_partition (lit "u") (λ _ _, true) None
                  [lit "Russian"; lit "English"; lit "Phrase in Russian";
                   lit "Phrase in English"]
                  [card "A"; short_card; card "C"; []])).
  reflexivity.
Defined.

Lemma anki_note_guid_witness :
  some_note ∈ (add_notes (lit "u") (λ _ _, true) None 0 some_csv).1
  ∧ ∃ j : nat,
      (0 < j)%nat
      ∧ some_csv !! j = Some (note_fields some_note)
      ∧ note_guid some_note = lit "card" ++ str_of_int (Z.of_nat j)
      ∧ note_tts some_note
        = (λ _, lit "[sound:" ++ (lit "u" ++ lit "-"
                 ++ str_of_int (Z.of_nat j) ++ lit ".mp3") ++ lit "]")
          <$> (None : option str).
Proof.
  assert (some_note
          ∈ (add_notes (lit "u") (λ _ _, true) None 0 some_csv).1) as Hin.
  { apply list_elem_of_lookup. exists 0%nat. vm_compute. reflexivity. }
  split; [exact Hin|].
  apply (anki_note_guid (lit "u") (λ _ _, true) None some_csv some_note Hin).
Defined.

(** The loops on a file of five rows: rows 3 and 5 are reported, rows 2
    and 4 become the notes card1 and card3. *)
Example some_csv_loops :
  ignored_rows 0 some_csv = [(3, short_card); (5, [])]
  ∧ note_guid <$> (add_notes (lit "u") (λ _ _, true) None 0 some_csv).1
    = [lit "card1"; lit "card3"].
Proof. split; vm_compute; reflexivity. Qed.
